(** * bohrenMKIV: removable-volume discovery, extension-filtered file
    collection and two-tier archival.

    Shallow embedding of [bohrenMKIV.py] and of the library functions it
    calls: [str.lower], [pathlib.PurePath.suffix], [os.path.join],
    [os.path.normpath], [os.path.abspath], [os.path.relpath] and
    [os.walk].

    - Strings are byte strings ([String.string]); [lower] is the ASCII
      lower-casing.
    - Paths follow [posixpath]; [PurePath.suffix] is
      [name[name.rfind('.'):]] when the dot is neither first nor last.
    - The directory tree is an inductive type; [os.walk] is a structural
      recursion over it, with the [followlinks] argument of the library.
    - Everything that leaves the interpreter (printing, imports,
      subprocesses, the archive writer, the network, the queries of the
      volume scan) is a call to an environment whose answers may depend
      on the calls made so far; every call is recorded in a trace.
      Functions are computations in a state-and-exception monad with
      [try]/[except] and [try]/[finally]. *)

From Stdlib Require Import List String Ascii ZArith NArith Bool Arith Lia.
Import ListNotations.

Open Scope string_scope.
Open Scope list_scope.

Notation "a +++ b" := (String.append a b) (at level 60, right associativity).

(** ** Python [str] methods *)
Module Str.

Definition lower_char (c : ascii) : ascii :=
  let n := N_of_ascii c in
  if ((65 <=? n) && (n <=? 90))%N then ascii_of_N (n + 32) else c.

Fixpoint lower (s : string) : string :=
  match s with
  | EmptyString => EmptyString
  | String c s' => String (lower_char c) (lower s')
  end.

Definition startswith (s p : string) : bool := String.prefix p s.

(** [s.endswith(c)] for a one-character [c]. *)
Fixpoint endswith (s : string) (c : ascii) : bool :=
  match s with
  | EmptyString => false
  | String a s' =>
      match s' with
      | EmptyString => Ascii.eqb a c
      | String _ _ => endswith s' c
      end
  end.

(** [s.split(c)]: never empty, [''.split(c) == ['']]. *)
Fixpoint split (c : ascii) (s : string) : list string :=
  match s with
  | EmptyString => [EmptyString]
  | String a s' =>
      if Ascii.eqb a c then EmptyString :: split c s'
      else match split c s' with
           | h :: t => String a h :: t
           | [] => [String a EmptyString]
           end
  end.

(** [s.lstrip(c)]. *)
Fixpoint lstrip (c : ascii) (s : string) : string :=
  match s with
  | EmptyString => EmptyString
  | String a s' => if Ascii.eqb a c then lstrip c s' else s
  end.

(** [s.rfind(c)]: index of the last occurrence, [-1] when absent. *)
Fixpoint rfind (c : ascii) (s : string) : Z :=
  match s with
  | EmptyString => (-1)%Z
  | String a s' =>
      let r := rfind c s' in
      if (0 <=? r)%Z then (r + 1)%Z
      else if Ascii.eqb a c then 0%Z else (-1)%Z
  end.

(** The slice [s[i:]] for [0 <= i]. *)
Fixpoint slice_from (i : nat) (s : string) : string :=
  match i, s with
  | O, _ => s
  | S i', String _ s' => slice_from i' s'
  | S _, EmptyString => EmptyString
  end.

(** [c * n]. *)
Fixpoint times (c : ascii) (n : nat) : string :=
  match n with
  | O => EmptyString
  | S n' => String c (times c n')
  end.

(** [sep.join(l)]. *)
Definition join (sep : string) (l : list string) : string := String.concat sep l.

(** [c in s] for a one-character [c]. *)
Fixpoint contains (s : string) (c : ascii) : bool :=
  match s with
  | EmptyString => false
  | String a s' => Ascii.eqb a c || contains s' c
  end.

(** [x in l] for a collection of strings. *)
Definition mem (x : string) (l : list string) : bool :=
  existsb (String.eqb x) l.

End Str.

(** ** [posixpath] *)
Module PosixPath.

Definition sep : ascii := "/"%char.

Definition isabs (s : string) : bool := Str.startswith s "/".

(** A path component: not empty and free of separators. *)
Definition component (c : string) : bool :=
  negb (c =? "")%string && negb (Str.contains c sep).

(** [os.path.join(a, b)]. *)
Definition join (a b : string) : string :=
  if Str.startswith b "/" || (a =? "")%string then b
  else if Str.endswith a sep then a +++ b
  else a +++ "/" +++ b.

Definition initial_slashes (path : string) : nat :=
  if Str.startswith path "/" then
    if Str.startswith path "//" && negb (Str.startswith path "///") then 2 else 1
  else 0.

Definition is_nil {A} (l : list A) : bool :=
  match l with [] => true | _ :: _ => false end.

(** One iteration of the component loop of [normpath]. *)
Definition norm_step (slashes : nat) (new_comps : list string) (comp : string)
  : list string :=
  if (comp =? "")%string || (comp =? ".")%string then new_comps
  else if negb (comp =? "..")%string
          || ((slashes =? 0)%nat && is_nil new_comps)
          || (negb (is_nil new_comps) && (last new_comps "" =? "..")%string)
       then new_comps ++ [comp]
       else if negb (is_nil new_comps) then removelast new_comps
            else new_comps.

Definition normpath (path : string) : string :=
  if (path =? "")%string then "."
  else
    let slashes := initial_slashes path in
    let comps := fold_left (norm_step slashes) (Str.split sep path) [] in
    let p := Str.times sep slashes +++ Str.join "/" comps in
    if (p =? "")%string then "." else p.

(** [os.path.abspath(path)] with [os.getcwd() = cwd]. *)
Definition abspath (cwd path : string) : string :=
  normpath (if isabs path then path else join cwd path).

(** [os.path.commonprefix([s1, s2])] on two lists of components: the
    elementwise comparison of the smaller with the larger list stops at
    the first difference, which yields their longest common prefix. *)
Fixpoint commonprefix (s1 s2 : list string) : list string :=
  match s1, s2 with
  | a :: s1', b :: s2' =>
      if (a =? b)%string then a :: commonprefix s1' s2' else []
  | _, _ => []
  end.

Definition components (tail : string) : list string :=
  if (tail =? "")%string then [] else Str.split sep tail.

(** [os.path.relpath(path, start=start)]; [None] is the [ValueError]
    raised for an empty [path]. *)
Definition relpath (cwd path start : string) : option string :=
  if (path =? "")%string then None
  else
    let start_tail := Str.lstrip sep (abspath cwd start) in
    let path_tail := Str.lstrip sep (abspath cwd path) in
    let start_list := components start_tail in
    let path_list := components path_tail in
    let i := List.length (commonprefix start_list path_list) in
    let rel_list := repeat ".." (List.length start_list - i) ++ skipn i path_list in
    Some (if is_nil rel_list then "." else Str.join "/" rel_list).

End PosixPath.

(** ** [pathlib.PurePosixPath] *)
Module PurePath.

(** The parsed parts below the anchor: empty and ["."] components are
    dropped. *)
Definition parts (path : string) : list string :=
  filter (fun c => negb ((c =? "")%string || (c =? ".")%string))
         (Str.split PosixPath.sep path).

Definition name (path : string) : string := last (parts path) "".

(** [PurePath.suffix]: [name[i:]] for [i = name.rfind('.')] when
    [0 < i < len(name) - 1], else the empty string. *)
Definition suffix (path : string) : string :=
  let name := name path in
  let i := Str.rfind "." name in
  if ((0 <? i) && (i <? Z.of_nat (String.length name) - 1))%Z
  then Str.slice_from (Z.to_nat i) name
  else "".

End PurePath.

(** ** The directory tree seen by [os.walk] *)
Module FS.

(** What [os.scandir] finds at a path.  A directory carries the device
    number ([st_dev]) of the filesystem it lives on and its entries in
    scan order; a symbolic link carries the node it resolves to. *)
#[warnings="-register-all"]
Inductive node : Type :=
| RegularFile
| SpecialFile
| Directory (st_dev : Z) (entries : list (string * node))
| Symlink (target : node).

Fixpoint resolve (n : node) : node :=
  match n with
  | Symlink t => resolve t
  | _ => n
  end.

(** [DirEntry.is_dir()], which follows symbolic links. *)
Definition is_dir (n : node) : bool :=
  match resolve n with
  | Directory _ _ => true
  | _ => false
  end.

(** [os.path.islink]. *)
Definition islink (n : node) : bool :=
  match n with
  | Symlink _ => true
  | _ => false
  end.

Definition dirs (entries : list (string * node)) : list string :=
  map fst (filter (fun e => is_dir (snd e)) entries).

Definition nondirs (entries : list (string * node)) : list string :=
  map fst (filter (fun e => negb (is_dir (snd e))) entries).

(** [os.walk(top, topdown=True, onerror=None, followlinks=followlinks)]
    on the tree [n] found at [top].  A [top] that cannot be scanned
    yields nothing: the [OSError] of [scandir] is ignored when
    [onerror] is [None]. *)
Fixpoint walk (followlinks : bool) (top : string) (n : node) {struct n}
  : list (string * list string * list string) :=
  match n with
  | Directory _ entries =>
      (top, dirs entries, nondirs entries) ::
      flat_map
        (fun e =>
           if is_dir (snd e) && (followlinks || negb (islink (snd e)))
           then walk followlinks (PosixPath.join top (fst e)) (snd e)
           else [])
        entries
  | Symlink t => walk followlinks top t
  | RegularFile | SpecialFile => []
  end.

(** A name that [scandir] can return: not empty, no separator, and
    neither ["."] nor [".."]. *)
Definition valid_name (s : string) : bool :=
  negb (s =? "")%string && negb (s =? ".")%string && negb (s =? "..")%string
  && negb (Str.contains s PosixPath.sep).

Fixpoint wf (n : node) : bool :=
  match n with
  | Directory _ entries =>
      forallb (fun e => valid_name (fst e) && wf (snd e)) entries
  | Symlink t => wf t
  | RegularFile | SpecialFile => true
  end.

(** [reaches n ds m]: from the directory [n], the chain of directory
    names [ds] leads to [m] through directories that are not symbolic
    links. *)
Inductive reaches : node -> list string -> node -> Prop :=
| reaches_here : forall n, reaches n [] n
| reaches_down : forall dev es d child ds m,
    In (d, child) es -> islink child = false ->
    reaches child ds m ->
    reaches (Directory dev es) (d :: ds) m.

(** The path of the directory reached from [top] by the names [ds], as
    [os.walk] builds it. *)
Definition descend (top : string) (ds : list string) : string :=
  fold_left PosixPath.join ds top.

(** [found tree ds name]: the directory reached from the root of
    [tree] by [ds] lists [name] as something that is not a directory. *)
Definition found (tree : option node) (ds : list string) (name : string) : Prop :=
  exists n dev es child,
    tree = Some n /\ reaches (resolve n) ds (Directory dev es) /\
    In (name, child) es /\ is_dir child = false.

Definition wf_tree (tree : option node) : bool :=
  match tree with
  | Some n => wf n
  | None => true
  end.

End FS.

(** ** File collection *)

(** The allowlist bound to the global [extensions]. *)
Definition extensions : list string :=
  [".pdf"; ".docx"; ".txt"; ".xls"; ".xlsx"; ".ppt"; ".pptx"; ".jpeg"; ".jpg";
   ".png"; ".py"; ".pyw"; ".cpp"; ".epub"; ".zip"; ".7z"; ".bat"; ".wav";
   ".mp3"; ".mp4"; ".md"; ".sh"; ".exe"; ".webp"; ".log"; ".yaml"; ".hex";
   ".rb"; ".c"; ".cs"; ".html"; ".js"; ".css"; ".lua"; ".csv"; ".xml"; ".rs";
   ".pyc"; ".key"; ".java"; ".jar"; ".ini"; ".dll"; ".enc"; ".db"; ".sql";
   ".o"; ".out"; ".stl"; ".obj"].

(** A well-formed allowlist entry: a dot followed by a non-empty
    lower-case body without dots or separators. *)
Definition is_extension (e : string) : bool :=
  match e with
  | EmptyString => false
  | String c body =>
      Ascii.eqb c "." && negb (body =? "")%string
      && negb (Str.contains body ".") && negb (Str.contains body PosixPath.sep)
      && (Str.lower e =? e)%string
  end.

(** The guard [Path(file).suffix.lower() in extensions]. *)
Definition matches (extensions : list string) (file : string) : bool :=
  Str.mem (Str.lower (PurePath.suffix file)) extensions.

(** The pair yielded for [file] in the directory [root]; [None] when
    [relpath] raises. *)
Definition candidate (cwd source root file : string) : option (string * string) :=
  let absPath := PosixPath.join root file in
  match PosixPath.relpath cwd absPath source with
  | Some relPath => Some (absPath, relPath)
  | None => None
  end.

Fixpoint sequence {A} (l : list (option A)) : option (list A) :=
  match l with
  | [] => Some []
  | None :: _ => None
  | Some a :: l' =>
      match sequence l' with
      | Some r => Some (a :: r)
      | None => None
      end
  end.

(** [list(collectMatchingFiles(source, extensions))] where [os.walk]
    sees the tree [tree] at [source] ([None]: nothing to scan there) and
    the working directory is [cwd].  The result is [None] when the
    generator raises. *)
Definition collectMatchingFiles (cwd : string) (tree : option FS.node)
    (source : string) (extensions : list string)
  : option (list (string * string)) :=
  let walked :=
    match tree with
    | Some n => FS.walk false source n
    | None => []
    end in
  sequence
    (flat_map
       (fun '(root, _, files) =>
          map (candidate cwd source root) (filter (matches extensions) files))
       walked).

(** A home directory used in the examples: matching and non-matching
    files, a dotfile, nested directories, a symbolic link to a directory
    and a directory that is the mount point of another filesystem. *)
Definition example_home : FS.node :=
  FS.Directory 1
    [("report.pdf", FS.RegularFile);
     ("notes.TXT", FS.RegularFile);
     ("image.png.bak", FS.RegularFile);
     (".txt", FS.RegularFile);
     ("docs", FS.Directory 1
                [("a.md", FS.RegularFile);
                 ("sub", FS.Directory 1 [("b.Py", FS.RegularFile)])]);
     ("link", FS.Symlink (FS.Directory 1 [("secret.txt", FS.RegularFile)]));
     ("usb", FS.Directory 2 [("c.txt", FS.RegularFile)])].

(** The directory reached by [ds] lies on the filesystem of the root. *)
Definition same_filesystem (tree : option FS.node) (ds : list string) : Prop :=
  exists n dev es es',
    tree = Some n /\ FS.resolve n = FS.Directory dev es /\
    FS.reaches (FS.resolve n) ds (FS.Directory dev es').

(** The walk never yields a file from a filesystem mounted beneath the
    root. *)
Definition stays_on_filesystem (cwd : string) (tree : option FS.node)
    (source : string) (extensions : list string) : Prop :=
  forall l ds name r,
    collectMatchingFiles cwd tree source extensions = Some l ->
    FS.found tree ds name ->
    In (PosixPath.join (FS.descend source ds) name, r) l ->
    same_filesystem tree ds.

(** ** Effects: exceptions, events and the environment *)
Module Py.

Inductive exn : Type :=
| FileNotFoundError (msg : string)
| CalledProcessError (msg stderr : string)
| ImportError (msg : string)
| ValueError (msg : string)
| OtherException (msg : string)
| KeyboardInterrupt.

(** [isinstance(e, Exception)]: everything but the [BaseException]s
    outside [Exception]. *)
Definition is_Exception (e : exn) : bool :=
  match e with
  | KeyboardInterrupt => false
  | _ => true
  end.

Definition is_ImportError (e : exn) : bool :=
  match e with
  | ImportError _ => true
  | _ => false
  end.

Definition is_FileNotFoundError (e : exn) : bool :=
  match e with
  | FileNotFoundError _ => true
  | _ => false
  end.

Definition is_CalledProcessError (e : exn) : bool :=
  match e with
  | CalledProcessError _ _ => true
  | _ => false
  end.

(** [str(e)]. *)
Definition str (e : exn) : string :=
  match e with
  | FileNotFoundError m | CalledProcessError m _ | ImportError m
  | ValueError m | OtherException m => m
  | KeyboardInterrupt => ""
  end.

(** [e.stderr] of a [CalledProcessError]. *)
Definition stderr (e : exn) : string :=
  match e with
  | CalledProcessError _ err => err
  | _ => ""
  end.

Inductive result (A : Type) : Type :=
| Ret (a : A)
| Raise (e : exn).
Arguments Ret {A} a.
Arguments Raise {A} e.

(** Every call that leaves the interpreter. *)
Inductive event : Type :=
| Print (msg : string)
| Import (module : string)
| GetLogicalDrives
| GetDriveTypeW (drive : string)
| Exists (path : string)
| Listdir (path : string)
| Ismount (path : string)
| Walk (top : string)
| Run (cmd : list string)
| EnsurepipBootstrap
| NamedTemporaryFile
| Urlretrieve (url filename : string)
| Remove (path : string)
| SevenZipOpen (path : string)
| SevenZipWrite (file arcname : string)
| SevenZipClose.

(** The machine the script runs on.  Each answer may depend on the
    calls made so far (most recent first). *)
Record Env : Type := {
  platform_system : string;
  sys_executable : string;
  getuser : string;
  home : string;
  getcwd : string;
  logical_drives : list event -> Z;
  drive_type : list event -> string -> Z;
  path_exists : list event -> string -> bool;
  listdir : list event -> string -> result (list string);
  ismount : list event -> string -> bool;
  scandir_tree : list event -> string -> option FS.node;
  import_module : list event -> string -> result unit;
  subprocess_run : list event -> list string -> result unit;
  ensurepip_bootstrap : list event -> result unit;
  mkstemp : list event -> result string;
  urlretrieve : list event -> string -> string -> result unit;
  archive_open : list event -> string -> result unit;
  archive_write : list event -> string -> string -> result unit;
  archive_close : list event -> result unit
}.

(** The interpreter's side: the calls made so far (most recent first),
    the temporary files of this process that exist, and the local
    variable [tmpFile] of [installPy7zr] ([None]: unbound). *)
Record state : Type := {
  trace : list event;
  tmpfiles : list string;
  tmpFile : option string
}.

Definition M (A : Type) : Type := state -> result A * state.

Definition ret {A} (a : A) : M A := fun s => (Ret a, s).

Definition raise {A} (e : exn) : M A := fun s => (Raise e, s).

Definition bind {A B} (c : M A) (k : A -> M B) : M B :=
  fun s =>
    match c s with
    | (Ret a, s') => k a s'
    | (Raise e, s') => (Raise e, s')
    end.

(** [try: body / except <handles> as e: handler e]. *)
Definition try_except {A} (body : M A) (handles : exn -> bool)
    (handler : exn -> M A) : M A :=
  fun s =>
    match body s with
    | (Ret a, s') => (Ret a, s')
    | (Raise e, s') => if handles e then handler e s' else (Raise e, s')
    end.

(** [try: body / finally: final]. *)
Definition try_finally {A} (body : M A) (final : M unit) : M A :=
  fun s =>
    match body s with
    | (r, s') =>
        match final s' with
        | (Ret _, s'') => (r, s'')
        | (Raise e, s'') => (Raise e, s'')
        end
    end.

Definition log (e : event) (s : state) : state :=
  {| trace := e :: trace s; tmpfiles := tmpfiles s; tmpFile := tmpFile s |}.

(** An external call: its answer depends on the calls before it. *)
Definition call {A} (e : event) (answer : list event -> result A) : M A :=
  fun s => (answer (trace s), log e s).

Definition print (msg : string) : M unit :=
  call (Print msg) (fun _ => Ret tt).

End Py.

Import Py.

Declare Scope py_scope.
Delimit Scope py_scope with py.
Notation "x <- c ;; k" := (Py.bind c (fun x => k))
  (at level 61, c at next level, right associativity) : py_scope.
Notation "c ;; k" := (Py.bind c (fun _ => k))
  (at level 61, right associativity) : py_scope.
Open Scope py_scope.

(** ** The script *)
Section Script.

Variable env : Env.

Definition nl : string := String (ascii_of_nat 10) EmptyString.

Definition import_ (module : string) : M unit :=
  call (Import module) (fun h => import_module env h module).

Definition run (cmd : list string) : M unit :=
  call (Run cmd) (fun h => subprocess_run env h cmd).

(** *** findDrive *)

(** The body of [for letter in "ABC...Z"]. *)
Fixpoint drive_loop (letters : list ascii) (bitmask : Z) (drives : list string)
  : M (list string) :=
  match letters with
  | [] => ret drives
  | letter :: rest =>
      drives' <-
        (if negb (Z.land bitmask 1 =? 0)%Z then
           let drive := String letter ":\" in
           drive_type <- call (GetDriveTypeW drive)
                              (fun h => Ret (drive_type env h drive)) ;;
           ret (if (drive_type =? 2)%Z then drives ++ [drive] else drives)
         else ret drives) ;;
      drive_loop rest (Z.shiftr bitmask 1) drives'
  end.

(** The body of [for entry in os.listdir(mountPoint)]. *)
Fixpoint entry_loop (mountPoint : string) (entries : list string)
    (drives : list string) : M (list string) :=
  match entries with
  | [] => ret drives
  | entry :: rest =>
      let path := PosixPath.join mountPoint entry in
      mounted <- call (Ismount path) (fun h => Ret (ismount env h path)) ;;
      entry_loop mountPoint rest (if mounted then drives ++ [path] else drives)
  end.

(** The body of [for mountPoint in mountPoints]. *)
Fixpoint mount_loop (mountPoints : list string) (drives : list string)
  : M (list string) :=
  match mountPoints with
  | [] => ret drives
  | mountPoint :: rest =>
      present <- call (Exists mountPoint)
                      (fun h => Ret (path_exists env h mountPoint)) ;;
      drives' <-
        (if present then
           entries <- call (Listdir mountPoint)
                           (fun h => listdir env h mountPoint) ;;
           entry_loop mountPoint entries drives
         else ret drives) ;;
      mount_loop rest drives'
  end.

Definition letters : list ascii := list_ascii_of_string "ABCDEFGHIJKLMNOPQRSTUVWXYZ".

Definition mountPoints (username : string) : list string :=
  ["/media/" +++ username; "/run/media/" +++ username; "/Volumes/" +++ username].

Definition findDrive (username : string) : M (option string) :=
  let system := platform_system env in
  drives <-
    (if (system =? "Windows")%string then
       import_ "ctypes" ;;
       bitmask <- call GetLogicalDrives (fun h => Ret (logical_drives env h)) ;;
       drive_loop letters bitmask []
     else mount_loop (mountPoints username) []) ;;
  match drives with
  | [] => print "[WARN] No external removable drive detected." ;; ret None
  | first :: _ => ret (Some first)
  end.

(** *** cliMethod *)

(** [list(collectMatchingFiles(source, extensions))]. *)
Definition collect (source : string) (extensions : list string)
  : M (list (string * string)) :=
  call (Walk source)
       (fun h =>
          match collectMatchingFiles (getcwd env) (scandir_tree env h source)
                                     source extensions with
          | Some l => Ret l
          | None => Raise (ValueError "no path specified")
          end).

Definition cliMethod (source destination username : string) : M bool :=
  let archiveName := PosixPath.join destination (username +++ "Backup.7z") in
  print ("[INFO] Attempting to compress with 7z CLI to " +++ archiveName +++ " ...") ;;
  matchingFiles <- collect source extensions ;;
  match matchingFiles with
  | [] => print "[WARN] No files found with specified extensions." ;; ret false
  | _ :: _ =>
      let absPaths := map fst matchingFiles in
      try_except
        (run (["7z"; "a"; archiveName] ++ absPaths ++ ["-mx=5"]) ;;
         print "[INFO] 7z CLI compression succeeded." ;;
         ret true)
        (fun e => is_FileNotFoundError e || is_CalledProcessError e)
        (fun e =>
           if is_FileNotFoundError e then
             print "[ERROR] 7z executable not found." ;; ret false
           else
             print ("[ERROR] 7z CLI compression failed:" +++ nl +++ stderr e) ;;
             ret false)
  end.

(** *** installPy7zr *)

Definition commands : list (list string) :=
  [[sys_executable env; "-m"; "pip"; "install"; "py7zr"];
   ["pip"; "install"; "py7zr"]].

(** The body of [for cmd in commands] in [tryPipInstall]. *)
Fixpoint pip_loop (commands : list (list string)) : M bool :=
  match commands with
  | [] => ret false
  | cmd :: rest =>
      installed <-
        try_except
          (run cmd ;;
           print "[INFO] py7zr installed successfully." ;;
           ret true)
          is_Exception
          (fun e =>
             print ("[ERROR] Failed to install py7zr using "
                      +++ Str.join " " cmd +++ ": " +++ str e) ;;
             ret false) ;;
      if (installed : bool) then ret true else pip_loop rest
  end.

Definition tryPipInstall : M bool := pip_loop commands.

(** [tempfile.NamedTemporaryFile(delete=False, suffix=".py")]: the file
    exists from here on. *)
Definition tempfile_NamedTemporaryFile : M string :=
  fun s =>
    match mkstemp env (trace s) with
    | Ret name =>
        (Ret name,
         {| trace := NamedTemporaryFile :: trace s;
            tmpfiles := name :: tmpfiles s;
            tmpFile := tmpFile s |})
    | Raise e => (Raise e, log NamedTemporaryFile s)
    end.

(** The binding [as tmpFile]. *)
Definition bind_tmpFile (name : string) : M unit :=
  fun s =>
    (Ret tt, {| trace := trace s; tmpfiles := tmpfiles s; tmpFile := Some name |}).

(** A fresh frame: no local is bound yet. *)
Definition enter_frame : M unit :=
  fun s =>
    (Ret tt, {| trace := trace s; tmpfiles := tmpfiles s; tmpFile := None |}).

Definition os_remove (name : string) : M unit :=
  fun s =>
    (Ret tt,
     {| trace := Remove name :: trace s;
        tmpfiles := filter (fun f => negb (f =? name)%string) (tmpfiles s);
        tmpFile := tmpFile s |}).

(** [if 'tmpFile' in locals() and os.path.exists(tmpFile.name):
       os.remove(tmpFile.name)]. *)
Definition remove_tmpFile : M unit :=
  fun s =>
    match tmpFile s with
    | Some name =>
        let s' := log (Exists name) s in
        if Str.mem name (tmpfiles s) then os_remove name s' else (Ret tt, s')
    | None => (Ret tt, s)
    end.

Definition url : string := "https://bootstrap.pypa.io/get-pip.py".

(** The third [try] statement of [installPy7zr] (download and run
    get-pip.py).  [Some b] is [return b]; [None] falls through to the
    statement after it. *)
Definition get_pip : M (option bool) :=
  try_finally
    (try_except
       (import_ "urllib.request" ;;
        import_ "tempfile" ;;
        import_ "os" ;;
        name <- tempfile_NamedTemporaryFile ;;
        bind_tmpFile name ;;
        call (Urlretrieve url name) (fun h => urlretrieve env h url name) ;;
        run [sys_executable env; name] ;;
        print "[INFO] pip installed successfully." ;;
        installed <- tryPipInstall ;;
        ret (Some installed))
       is_Exception
       (fun e =>
          print ("[ERROR] Failed to install pip via get-pip.py: " +++ str e) ;;
          ret None))
    remove_tmpFile.

(** The second [try] statement (ensurepip). *)
Definition ensure_pip : M (option bool) :=
  try_except
    (import_ "ensurepip" ;;
     print "[INFO] Trying to install pip using ensurepip..." ;;
     call EnsurepipBootstrap (fun h => ensurepip_bootstrap env h) ;;
     installed <- tryPipInstall ;;
     ret (Some installed))
    is_Exception
    (fun e => print ("[WARN] ensurepip failed: " +++ str e) ;; ret None).

Definition installPy7zr : M bool :=
  enter_frame ;;
  print "[INFO] Attempting to install py7zr..." ;;
  returned <-
    try_except
      (run [sys_executable env; "-m"; "pip"; "--version"] ;;
       installed <- tryPipInstall ;;
       ret (Some installed))
      (fun e => is_CalledProcessError e || is_FileNotFoundError e)
      (fun _ =>
         print "[WARN] pip not found. Attempting to install pip..." ;;
         returned <- ensure_pip ;;
         match returned with
         | Some b => ret (Some b)
         | None => get_pip
         end) ;;
  match returned with
  | Some b => ret b
  | None => ret false
  end.

(** *** py7zrMethod *)

(** The body of [for absFilePath, relFilePath in matchingFiles]. *)
Fixpoint write_loop (matchingFiles : list (string * string)) : M unit :=
  match matchingFiles with
  | [] => ret tt
  | (absFilePath, relFilePath) :: rest =>
      call (SevenZipWrite absFilePath relFilePath)
           (fun h => archive_write env h absFilePath relFilePath) ;;
      write_loop rest
  end.

(** [with py7zr.SevenZipFile(archivePath, mode='w') as archive: body]:
    the archive is closed when the block is left, normally or not. *)
Definition with_SevenZipFile (archivePath : string) (body : M unit) : M unit :=
  call (SevenZipOpen archivePath) (fun h => archive_open env h archivePath) ;;
  try_finally body (call SevenZipClose (fun h => archive_close env h)).

(** The first [try] statement of [py7zrMethod]: [Some b] is
    [return b]; [None] goes on to the statement after it. *)
Definition load_py7zr : M (option bool) :=
  try_except
    (import_ "py7zr" ;; ret None)
    is_ImportError
    (fun _ =>
       installed <- installPy7zr ;;
       if negb installed then
         print "[ERROR] Failed to install the py7zr package." ;;
         ret (Some false)
       else
         import_ "py7zr" ;; ret None).

(** The last [try] statement of [py7zrMethod]. *)
Definition write_archive (archivePath : string)
    (matchingFiles : list (string * string)) : M bool :=
  try_except
    (with_SevenZipFile archivePath (write_loop matchingFiles) ;;
     print "[INFO] py7zr compression of filtered files succeeded." ;;
     ret true)
    is_Exception
    (fun e =>
       print ("[ERROR] py7zr compression failed: " +++ str e) ;;
       ret false).

Definition py7zrMethod (source destination username : string) : M bool :=
  returned <- load_py7zr ;;
  match returned with
  | Some b => ret b
  | None =>
      let archivePath := PosixPath.join destination (username +++ "Backup.7z") in
      print ("[INFO] Attempting to compress files with selected extensions to "
               +++ archivePath +++ " ...") ;;
      matchingFiles <- collect source extensions ;;
      match matchingFiles with
      | [] => print "[WARN] No files found with specified extensions." ;; ret false
      | _ :: _ => write_archive archivePath matchingFiles
      end
  end.

(** *** main *)

Definition main : M unit :=
  let username := getuser env in
  let homeDirectory := home env in
  externalDrive <- findDrive username ;;
  match externalDrive with
  | None =>
      print "[ERROR] No external drive detected. Please insert a drive for extraction."
  | Some drive =>
      if (drive =? "")%string then
        print "[ERROR] No external drive detected. Please insert a drive for extraction."
      else
        done <- cliMethod homeDirectory drive username ;;
        if (done : bool) then print "[INFO] Extraction complete using cliMethod()."
        else
          done <- py7zrMethod homeDirectory drive username ;;
          if (done : bool) then print "[INFO] Extraction complete using py7zrMethod()."
          else print "[ERROR] Failed to extract files."
  end.

End Script.

Definition initial : state := {| trace := []; tmpfiles := []; tmpFile := None |}.

(** ** Volume discovery, declaratively *)

(** What a scan for volumes can observe at one moment. *)
Record Volumes : Type := {
  drive_bits : Z;
  media_type : string -> Z;
  present : string -> bool;
  children : string -> list string;
  mounted : string -> bool
}.

(** From the moment when the calls made are [t], the machine answers
    every query of [findDrive] according to [v]; what it answered
    before is left open. *)
Definition observes (env : Env) (v : Volumes) (t : list event) : Prop :=
  (forall new, import_module env (new ++ t) "ctypes" = Ret tt) /\
  (forall new, logical_drives env (new ++ t) = drive_bits v) /\
  (forall new d, drive_type env (new ++ t) d = media_type v d) /\
  (forall new x, path_exists env (new ++ t) x = present v x) /\
  (forall new x, present v x = true ->
                 listdir env (new ++ t) x = Ret (children v x)) /\
  (forall new x, ismount env (new ++ t) x = mounted v x).




(** ** Example machines *)

(** A Linux machine: one removable volume mounted under [/media/u],
    [example_home] as the home directory, a working 7z. *)
Definition example_linux : Env := {|
  platform_system := "Linux";
  sys_executable := "/usr/bin/python3";
  getuser := "u";
  home := "/home/u";
  getcwd := "/work";
  logical_drives := fun _ => 0%Z;
  drive_type := fun _ _ => 0%Z;
  path_exists := fun _ path => (path =? "/media/u")%string;
  listdir := fun _ _ => Ret ["disk"; "stick"];
  ismount := fun _ path => (path =? "/media/u/stick")%string;
  scandir_tree := fun _ path =>
    if (path =? "/home/u")%string then Some example_home else None;
  import_module := fun _ _ => Ret tt;
  subprocess_run := fun _ _ => Ret tt;
  ensurepip_bootstrap := fun _ => Ret tt;
  mkstemp := fun _ => Ret "/tmp/tmpk3x.py";
  urlretrieve := fun _ _ _ => Ret tt;
  archive_open := fun _ _ => Ret tt;
  archive_write := fun _ _ _ => Ret tt;
  archive_close := fun _ => Ret tt
|}.

(** A machine without 7z and without py7zr, whose interpreter has a
    pip that refuses to install, while the [pip] found on the path
    serves another interpreter: it exits with status 0 and py7zr stays
    unimportable here. *)
Definition example_foreign_pip : Env := {|
  platform_system := "Linux";
  sys_executable := "/usr/bin/python3";
  getuser := "u";
  home := "/home/u";
  getcwd := "/work";
  logical_drives := fun _ => 0%Z;
  drive_type := fun _ _ => 0%Z;
  path_exists := fun _ path => (path =? "/media/u")%string;
  listdir := fun _ _ => Ret ["stick"];
  ismount := fun _ path => (path =? "/media/u/stick")%string;
  scandir_tree := fun _ path =>
    if (path =? "/home/u")%string then Some example_home else None;
  import_module := fun _ module =>
    if (module =? "py7zr")%string
    then Raise (ImportError "No module named 'py7zr'")
    else Ret tt;
  subprocess_run := fun _ cmd =>
    match cmd with
    | "7z" :: _ =>
        Raise (FileNotFoundError "[Errno 2] No such file or directory: '7z'")
    | [_; "-m"; "pip"; "install"; _] =>
        Raise (CalledProcessError "returned non-zero exit status 1."
                                  "error: externally-managed-environment")
    | _ => Ret tt
    end;
  ensurepip_bootstrap := fun _ => Raise (OtherException "ensurepip is disabled");
  mkstemp := fun _ => Ret "/tmp/tmpk3x.py";
  urlretrieve := fun _ _ _ => Ret tt;
  archive_open := fun _ _ => Ret tt;
  archive_write := fun _ _ _ => Ret tt;
  archive_close := fun _ => Ret tt
|}.




(** A machine on which the volume under [/media/u] is mounted only
    after the script has printed its first message. *)
Definition example_hotplug : Env := {|
  platform_system := "Linux";
  sys_executable := "/usr/bin/python3";
  getuser := "u";
  home := "/home/u";
  getcwd := "/work";
  logical_drives := fun _ => 0%Z;
  drive_type := fun _ _ => 0%Z;
  path_exists := fun _ path => (path =? "/media/u")%string;
  listdir := fun _ _ => Ret ["disk"; "stick"];
  ismount := fun h path =>
    (path =? "/media/u/stick")%string
    && existsb (fun ev => match ev with Print _ => true | _ => false end) h;
  scandir_tree := fun _ _ => None;
  import_module := fun _ _ => Ret tt;
  subprocess_run := fun _ _ => Ret tt;
  ensurepip_bootstrap := fun _ => Ret tt;
  mkstemp := fun _ => Ret "/tmp/tmpk3x.py";
  urlretrieve := fun _ _ _ => Ret tt;
  archive_open := fun _ _ => Ret tt;
  archive_write := fun _ _ _ => Ret tt;
  archive_close := fun _ => Ret tt
|}.

(** A Windows machine with drives C, D and E, of which E is removable. *)
Definition example_windows : Env := {|
  platform_system := "Windows";
  sys_executable := "C:\Python\python.exe";
  getuser := "u";
  home := "C:\Users\u";
  getcwd := "C:\";
  logical_drives := fun _ => 28%Z;
  drive_type := fun _ d => if (d =? "E:\")%string then 2%Z else 3%Z;
  path_exists := fun _ _ => false;
  listdir := fun _ _ => Ret [];
  ismount := fun _ _ => false;
  scandir_tree := fun _ _ => None;
  import_module := fun _ _ => Ret tt;
  subprocess_run := fun _ _ => Ret tt;
  ensurepip_bootstrap := fun _ => Ret tt;
  mkstemp := fun _ => Ret "C:\Temp\tmpk3x.py";
  urlretrieve := fun _ _ _ => Ret tt;
  archive_open := fun _ _ => Ret tt;
  archive_write := fun _ _ _ => Ret tt;
  archive_close := fun _ => Ret tt
|}.

(** What a scan of [example_windows] observes. *)
Definition example_drives : Volumes := {|
  drive_bits := 28;
  media_type := fun d => if (d =? "E:\")%string then 2%Z else 3%Z;
  present := fun _ => false;
  children := fun _ => [];
  mounted := fun _ => false
|}.

(** ** Observing runs *)

(** [adds p n c]: a run of [c] only extends the trace, by at most [n]
    events that satisfy [p]. *)
Definition adds {A} (p : event -> bool) (n : nat) (c : M A) : Prop :=
  forall s, exists new,
    trace (snd (c s)) = new ++ trace s /\ List.length (filter p new) <= n.

(** The calls that only the library tier makes. *)
Definition is_library_event (ev : event) : bool :=
  match ev with
  | Import module => (module =? "py7zr")%string
  | EnsurepipBootstrap | NamedTemporaryFile | Urlretrieve _ _ | Remove _
  | SevenZipOpen _ | SevenZipWrite _ _ | SevenZipClose => true
  | _ => false
  end.

Definition is_py7zr_import (ev : event) : bool :=
  match ev with
  | Import module => (module =? "py7zr")%string
  | _ => false
  end.

Definition is_walk (ev : event) : bool :=
  match ev with
  | Walk _ => true
  | _ => false
  end.

Definition is_run (ev : event) : bool :=
  match ev with
  | Run _ => true
  | _ => false
  end.


Definition is_open (ev : event) : bool :=
  match ev with
  | SevenZipOpen _ => true
  | _ => false
  end.

(** [raises_only Q c]: whatever [c] raises satisfies [Q]. *)
Definition raises_only {A} (Q : exn -> Prop) (c : M A) : Prop :=
  forall s e s', c s = (Raise e, s') -> Q e.

(** [keeps c]: [c] neither creates nor removes a temporary file and
    leaves the local [tmpFile] alone. *)
Definition keeps {A} (c : M A) : Prop :=
  forall s, tmpfiles (snd (c s)) = tmpfiles s /\ tmpFile (snd (c s)) = tmpFile s.

(** [shrinks c]: every temporary file that exists after [c] existed
    before it. *)
Definition shrinks {A} (c : M A) : Prop :=
  forall s f, In f (tmpfiles (snd (c s))) -> In f (tmpfiles s).

(** Between [s] and [s1] either nothing happened to the temporary
    files, or one was created and bound to [tmpFile]. *)
Definition temp_bound (s s1 : state) : Prop :=
  (tmpfiles s1 = tmpfiles s /\ tmpFile s1 = tmpFile s) \/
  (exists name, tmpfiles s1 = name :: tmpfiles s /\ tmpFile s1 = Some name).

(** The trace [t] records a pip install command that exited with
    status 0. *)
Definition pip_install_succeeded (env : Env) (t : list event) : Prop :=
  exists cmd h after,
    In cmd (commands env) /\ t = after ++ Run cmd :: h /\
    subprocess_run env h cmd = Ret tt.

(** C3 as stated: once [installPy7zr] has returned [True], importing
    py7zr succeeds. *)
Definition install_implies_importable (env : Env) : Prop :=
  forall s s',
    installPy7zr env s = (Ret true, s') ->
    import_module env (trace s') "py7zr" = Ret tt.





(** ** Further observations *)

(** The calls of the volume scan, and printing. *)
Definition is_discovery_event (ev : event) : bool :=
  match ev with
  | Print _ | GetLogicalDrives | GetDriveTypeW _
  | Exists _ | Listdir _ | Ismount _ => true
  | Import module => (module =? "ctypes")%string
  | _ => false
  end.

Definition is_filesystem_query (ev : event) : bool :=
  match ev with
  | Exists _ | Listdir _ | Ismount _ => true
  | _ => false
  end.

Definition is_windows_call (ev : event) : bool :=
  match ev with
  | GetLogicalDrives | GetDriveTypeW _ => true
  | Import module => (module =? "ctypes")%string
  | _ => false
  end.

(** The calls that provision pip: ensurepip and the get-pip download. *)
Definition is_bootstrap_event (ev : event) : bool :=
  match ev with
  | EnsurepipBootstrap | NamedTemporaryFile | Urlretrieve _ _
  | Remove _ | Exists _ => true
  | Import module =>
      (module =? "ensurepip")%string || (module =? "urllib.request")%string
      || (module =? "tempfile")%string || (module =? "os")%string
  | _ => false
  end.

(** The calls of the get-pip step: the download and what surrounds it. *)
Definition is_download_event (ev : event) : bool :=
  match ev with
  | NamedTemporaryFile | Urlretrieve _ _ | Remove _ | Exists _ => true
  | Import module =>
      (module =? "urllib.request")%string
      || (module =? "tempfile")%string || (module =? "os")%string
  | _ => false
  end.

(** The trace [t] records a run of [cmd] that raised an [Exception]. *)
Definition pip_install_failed (env : Env) (t : list event) (cmd : list string)
  : Prop :=
  exists h after e,
    t = after ++ Run cmd :: h /\
    subprocess_run env h cmd = Raise e /\ is_Exception e = true.

(** The call that adds one selected file to the archive. *)
Definition write_event (f : string * string) : event :=
  SevenZipWrite (fst f) (snd f).


(** The names of a list are pairwise different. *)
Fixpoint distinct (l : list string) : bool :=
  match l with
  | [] => true
  | x :: l' => negb (Str.mem x l') && distinct l'
  end.

(** No directory of the tree lists a name twice. *)
Fixpoint unique_names (n : FS.node) : bool :=
  match n with
  | FS.Directory _ entries =>
      distinct (map fst entries)
      && forallb (fun e => unique_names (snd e)) entries
  | FS.Symlink t => unique_names t
  | FS.RegularFile | FS.SpecialFile => true
  end.

(** The files below a directory, each with the chain of directory
    names that leads to it, in the order in which a top-down walk that
    does not follow links meets them. *)
Fixpoint files_of (n : FS.node) : list (list string * string) :=
  match n with
  | FS.Directory _ entries =>
      map (fun name => ([], name)) (FS.nondirs entries)
      ++ flat_map
           (fun e =>
              if FS.is_dir (snd e) && negb (FS.islink (snd e))
              then map (fun a => (fst e :: fst a, snd a)) (files_of (snd e))
              else [])
           entries
  | FS.Symlink t => files_of t
  | FS.RegularFile | FS.SpecialFile => []
  end.

(** A machine without a network, on which every subprocess exits with a
    non-zero status. *)
Definition example_offline : Env := {|
  platform_system := "Linux";
  sys_executable := "/usr/bin/python3";
  getuser := "u";
  home := "/home/u";
  getcwd := "/work";
  logical_drives := fun _ => 0%Z;
  drive_type := fun _ _ => 0%Z;
  path_exists := fun _ _ => false;
  listdir := fun _ _ => Ret [];
  ismount := fun _ _ => false;
  scandir_tree := fun _ _ => None;
  import_module := fun _ _ => Ret tt;
  subprocess_run := fun _ _ => Raise (CalledProcessError "exit status 1" "");
  ensurepip_bootstrap := fun _ => Ret tt;
  mkstemp := fun _ => Ret "/tmp/tmpk3x.py";
  urlretrieve := fun _ _ _ => Raise (OtherException "<urlopen error timed out>");
  archive_open := fun _ _ => Ret tt;
  archive_write := fun _ _ _ => Ret tt;
  archive_close := fun _ => Ret tt
|}.

(** * Examples *)

Example lower_example : Str.lower "Report.PDF" = "report.pdf".
Proof. reflexivity. Qed.

Example suffix_last_dot : PurePath.suffix "image.png.bak" = ".bak".
Proof. reflexivity. Qed.

Example suffix_of_dotfile : PurePath.suffix ".txt" = "".
Proof. reflexivity. Qed.

Example suffix_trailing_dot : PurePath.suffix "notes." = "".
Proof. reflexivity. Qed.

Example join_plain : PosixPath.join "/home/u" "a.txt" = "/home/u/a.txt".
Proof. reflexivity. Qed.

Example join_trailing_slash : PosixPath.join "/home/u/" "a.txt" = "/home/u/a.txt".
Proof. reflexivity. Qed.

Example join_absolute : PosixPath.join "/home/u" "/etc/passwd" = "/etc/passwd".
Proof. reflexivity. Qed.

Example normpath_dots : PosixPath.normpath "/home//u/./d/../x" = "/home/u/x".
Proof. reflexivity. Qed.

Example normpath_two_slashes : PosixPath.normpath "//a/../../b" = "//b".
Proof. reflexivity. Qed.

Example normpath_relative : PosixPath.normpath "../a/../.." = "../..".
Proof. reflexivity. Qed.

Example relpath_below :
  PosixPath.relpath "/work" "/home/u/d/a.txt" "/home/u" = Some "d/a.txt".
Proof. reflexivity. Qed.

Example relpath_sibling :
  PosixPath.relpath "/work" "src/a.txt" "lib" = Some "../src/a.txt".
Proof. reflexivity. Qed.

Example relpath_empty : PosixPath.relpath "/work" "" "/home/u" = None.
Proof. reflexivity. Qed.

(** [os.walk] lists a symbolic link to a directory among the
    directories and does not enter it. *)
Example walk_example :
  FS.walk false "/home/u" example_home
  = [("/home/u", ["docs"; "link"; "usb"],
      ["report.pdf"; "notes.TXT"; "image.png.bak"; ".txt"]);
     ("/home/u/docs", ["sub"], ["a.md"]);
     ("/home/u/docs/sub", [], ["b.Py"]);
     ("/home/u/usb", [], ["c.txt"])].
Proof. reflexivity. Qed.

Example walk_followlinks_example :
  In ("/home/u/link", [], ["secret.txt"]) (FS.walk true "/home/u" example_home).
Proof. simpl. tauto. Qed.

Example findDrive_linux_example :
  findDrive example_linux "u" initial
  = (Ret (Some "/media/u/stick"),
     {| trace := [Exists "/Volumes/u"; Exists "/run/media/u";
                  Ismount "/media/u/stick"; Ismount "/media/u/disk";
                  Listdir "/media/u"; Exists "/media/u"];
        tmpfiles := []; tmpFile := None |}).
Proof. reflexivity. Qed.

Example findDrive_windows_example :
  findDrive example_windows "u" initial
  = (Ret (Some "E:\"),
     {| trace := [GetDriveTypeW "E:\"; GetDriveTypeW "D:\"; GetDriveTypeW "C:\";
                  GetLogicalDrives; Import "ctypes"];
        tmpfiles := []; tmpFile := None |}).
Proof. reflexivity. Qed.

Example cliMethod_example :
  cliMethod example_linux "/home/u" "/media/u/stick" "u" initial
  = (Ret true,
     {| trace :=
          [Print "[INFO] 7z CLI compression succeeded.";
           Run ["7z"; "a"; "/media/u/stick/uBackup.7z"; "/home/u/report.pdf";
                "/home/u/notes.TXT"; "/home/u/docs/a.md"; "/home/u/docs/sub/b.Py";
                "/home/u/usb/c.txt"; "-mx=5"];
           Walk "/home/u";
           Print "[INFO] Attempting to compress with 7z CLI to /media/u/stick/uBackup.7z ..."];
        tmpfiles := []; tmpFile := None |}).
Proof. reflexivity. Qed.

(** On [example_foreign_pip] the run of [main] ends in the
    [ImportError] of the second import of py7zr. *)
Example main_foreign_pip_example :
  fst (main example_foreign_pip initial)
  = Raise (ImportError "No module named 'py7zr'")
  /\ rev (trace (snd (main example_foreign_pip initial)))
     = [Exists "/media/u"; Listdir "/media/u"; Ismount "/media/u/stick";
        Exists "/run/media/u"; Exists "/Volumes/u";
        Print "[INFO] Attempting to compress with 7z CLI to /media/u/stick/uBackup.7z ...";
        Walk "/home/u";
        Run ["7z"; "a"; "/media/u/stick/uBackup.7z"; "/home/u/report.pdf";
             "/home/u/notes.TXT"; "/home/u/docs/a.md"; "/home/u/docs/sub/b.Py";
             "/home/u/usb/c.txt"; "-mx=5"];
        Print "[ERROR] 7z executable not found.";
        Import "py7zr";
        Print "[INFO] Attempting to install py7zr...";
        Run ["/usr/bin/python3"; "-m"; "pip"; "--version"];
        Run ["/usr/bin/python3"; "-m"; "pip"; "install"; "py7zr"];
        Print "[ERROR] Failed to install py7zr using /usr/bin/python3 -m pip install py7zr: returned non-zero exit status 1.";
        Run ["pip"; "install"; "py7zr"];
        Print "[INFO] py7zr installed successfully.";
        Import "py7zr"].
Proof. split; reflexivity. Qed.

(** * Facts about strings and paths *)
Section StringFacts.

Lemma append_nil_r (s : string) : s +++ "" = s.
Proof. induction s as [|c s IH]; simpl; [reflexivity | now rewrite IH]. Qed.

Lemma append_assoc (a b c : string) : (a +++ b) +++ c = a +++ b +++ c.
Proof. induction a as [|x a IH]; simpl; [reflexivity | now rewrite IH]. Qed.

Lemma append_eq_nil (a b : string) : a +++ b = "" -> a = "" /\ b = "".
Proof. destruct a; simpl; [auto | discriminate]. Qed.

Lemma length_append (a b : string) :
  String.length (a +++ b) = String.length a + String.length b.
Proof. induction a as [|x a IH]; simpl; [reflexivity | now rewrite IH]. Qed.

Lemma contains_append (a b : string) (c : ascii) :
  Str.contains (a +++ b) c = Str.contains a c || Str.contains b c.
Proof.
  induction a as [|x a IH]; simpl; [reflexivity|].
  now rewrite IH, orb_assoc.
Qed.

Lemma startswith_nil (s : string) : Str.startswith s "" = true.
Proof. destruct s; reflexivity. Qed.

Lemma startswith_sep_cons (c : ascii) (s : string) :
  Str.startswith (String c s) "/" = Ascii.eqb c PosixPath.sep.
Proof.
  change (Str.startswith (String c s) "/")
    with (if ascii_dec "/"%char c then String.prefix "" s else false).
  destruct (ascii_dec "/"%char c) as [E|E].
  - subst c. destruct s; reflexivity.
  - symmetry. apply Ascii.eqb_neq. unfold PosixPath.sep. congruence.
Qed.

(** A string with no separator does not start with one, and neither
    does anything it is prepended to. *)
Lemma startswith_sep_append (d x : string) :
  d <> "" -> Str.contains d PosixPath.sep = false ->
  Str.startswith (d +++ x) "/" = false.
Proof.
  destruct d as [|c d]; [congruence|]. intros _ H.
  change (String c d +++ x) with (String c (d +++ x)).
  rewrite startswith_sep_cons. simpl in H.
  now apply orb_false_iff in H as [H _].
Qed.

Lemma endswith_append (a d : string) (c : ascii) :
  d <> "" -> Str.endswith (a +++ d) c = Str.endswith d c.
Proof.
  intros Hd. induction a as [|x a IH]; [reflexivity|].
  simpl. destruct (a +++ d) eqn:E.
  - apply append_eq_nil in E as [_ E]. congruence.
  - exact IH.
Qed.

Lemma endswith_contains (d : string) (c : ascii) :
  Str.contains d c = false -> Str.endswith d c = false.
Proof.
  induction d as [|x d IH]; [reflexivity|]. simpl. intros H.
  apply orb_false_iff in H as [Hx Hd].
  destruct d; [exact Hx | exact (IH Hd)].
Qed.

Lemma endswith_inv (s : string) (c : ascii) :
  Str.endswith s c = true -> exists s0, s = s0 +++ String c "".
Proof.
  induction s as [|x s IH]; [discriminate|]. simpl.
  destruct s as [|y s].
  - intros H. apply Ascii.eqb_eq in H. subst. now exists "".
  - intros H. destruct (IH H) as [s0 E]. exists (String x s0).
    simpl. now rewrite <- E.
Qed.

Lemma endswith_snoc (s : string) (c : ascii) :
  Str.endswith (s +++ String c "") c = true.
Proof.
  rewrite endswith_append by discriminate. simpl. apply Ascii.eqb_refl.
Qed.


Lemma split_nonempty (c : ascii) (s : string) : Str.split c s <> [].
Proof.
  destruct s as [|a s]; simpl; [discriminate|].
  destruct (Ascii.eqb a c); [discriminate|].
  destruct (Str.split c s); discriminate.
Qed.

Lemma split_no_sep (c : ascii) (s : string) :
  Str.contains s c = false -> Str.split c s = [s].
Proof.
  induction s as [|a s IH]; [reflexivity|]. simpl. intros H.
  apply orb_false_iff in H as [Ha Hs]. rewrite Ha, (IH Hs). reflexivity.
Qed.

Lemma split_append (c : ascii) (a b : string) :
  Str.split c (a +++ String c b) = Str.split c a ++ Str.split c b.
Proof.
  induction a as [|x a IH]; simpl.
  - now rewrite Ascii.eqb_refl.
  - destruct (Ascii.eqb x c); [now rewrite IH|].
    rewrite IH. pose proof (split_nonempty c a) as Hne.
    destruct (Str.split c a); [congruence | reflexivity].
Qed.

Lemma split_contains (c : ascii) (s : string) :
  Forall (fun x => Str.contains x c = false) (Str.split c s).
Proof.
  induction s as [|a s IH]; simpl.
  - constructor; [reflexivity | constructor].
  - destruct (Ascii.eqb a c) eqn:E.
    + constructor; [reflexivity | exact IH].
    + destruct (Str.split c s) as [|h t].
      * constructor; [simpl; now rewrite E | constructor].
      * inversion IH; subst. constructor; [simpl; now rewrite E | assumption].
Qed.

Lemma join_cons2 (x y : string) (l : list string) :
  Str.join "/" (x :: y :: l) = x +++ "/" +++ Str.join "/" (y :: l).
Proof. reflexivity. Qed.

Lemma join_app (l1 l2 : list string) :
  l1 <> [] -> l2 <> [] ->
  Str.join "/" (l1 ++ l2) = Str.join "/" l1 +++ "/" +++ Str.join "/" l2.
Proof.
  intros H1 H2. induction l1 as [|x l1 IH]; [congruence|].
  destruct l1 as [|y l1].
  - destruct l2; [congruence | reflexivity].
  - change ((x :: y :: l1) ++ l2) with (x :: y :: (l1 ++ l2)).
    rewrite !join_cons2.
    change (y :: l1 ++ l2) with ((y :: l1) ++ l2).
    rewrite IH by discriminate. now rewrite !append_assoc.
Qed.

Lemma split_join (l : list string) :
  l <> [] -> Forall (fun x => Str.contains x PosixPath.sep = false) l ->
  Str.split PosixPath.sep (Str.join "/" l) = l.
Proof.
  intros Hne Hall. induction l as [|x l IH]; [congruence|].
  inversion Hall as [|? ? Hx Hl]; subst.
  destruct l as [|y l].
  - simpl. now apply split_no_sep.
  - rewrite join_cons2.
    change (x +++ "/" +++ Str.join "/" (y :: l))
      with (x +++ String PosixPath.sep (Str.join "/" (y :: l))).
    rewrite split_append, (split_no_sep _ _ Hx), IH; [reflexivity | discriminate | assumption].
Qed.

Lemma component_spec (c : string) :
  PosixPath.component c = true <->
  c <> "" /\ Str.contains c PosixPath.sep = false.
Proof.
  unfold PosixPath.component. rewrite andb_true_iff, !negb_true_iff.
  now rewrite String.eqb_neq.
Qed.

Lemma join_component_start (l : list string) :
  l <> [] -> Forall (fun x => PosixPath.component x = true) l ->
  Str.join "/" l <> "" /\ Str.startswith (Str.join "/" l) "/" = false.
Proof.
  intros Hne Hall. destruct l as [|x l]; [congruence|].
  inversion Hall as [|? ? Hx _]; subst. apply component_spec in Hx as [Hx1 Hx2].
  destruct l as [|y l].
  - simpl. split; [assumption|].
    rewrite <- (append_nil_r x). now apply startswith_sep_append.
  - rewrite join_cons2. split.
    + intros E. apply append_eq_nil in E as [E _]. congruence.
    + now apply startswith_sep_append.
Qed.

Lemma lstrip_times (k : nat) (s : string) :
  Str.lstrip PosixPath.sep (Str.times PosixPath.sep k +++ s)
  = Str.lstrip PosixPath.sep s.
Proof. induction k as [|k IH]; simpl; [reflexivity | exact IH]. Qed.

Lemma lstrip_id (s : string) :
  Str.startswith s "/" = false -> Str.lstrip PosixPath.sep s = s.
Proof.
  destruct s as [|c s]; [reflexivity|].
  rewrite startswith_sep_cons. simpl. now intros ->.
Qed.

End StringFacts.

Section PathFacts.

Import PosixPath.

(** What [join] puts between a non-empty [a] and a relative [b]. *)
Let glue (a : string) : string := if Str.endswith a sep then "" else "/".

Lemma join_nil_l (b : string) : join "" b = b.
Proof. unfold join. simpl. now rewrite orb_true_r. Qed.

Lemma join_rel (a b : string) :
  a <> "" -> Str.startswith b "/" = false -> join a b = a +++ glue a +++ b.
Proof.
  intros Ha Hb. unfold join, glue. rewrite Hb.
  apply String.eqb_neq in Ha. rewrite Ha. simpl.
  destruct (Str.endswith a sep); reflexivity.
Qed.

Lemma glue_append (a x b : string) : b <> "" -> glue (a +++ x +++ b) = glue b.
Proof.
  intros Hb. unfold glue. rewrite <- append_assoc.
  now rewrite endswith_append.
Qed.

Lemma isabs_append (a b : string) : isabs a = true -> isabs (a +++ b) = true.
Proof.
  destruct a as [|c a]; [discriminate|]. unfold isabs.
  change (String c a +++ b) with (String c (a +++ b)).
  now rewrite !startswith_sep_cons.
Qed.

Lemma isabs_cons_append (c : ascii) (a b : string) :
  isabs (String c a +++ b) = isabs (String c a).
Proof.
  unfold isabs. change (String c a +++ b) with (String c (a +++ b)).
  now rewrite !startswith_sep_cons.
Qed.

Lemma join_component (a d : string) :
  component d = true ->
  join a d <> "" /\ Str.endswith (join a d) sep = false.
Proof.
  intros Hd. apply component_spec in Hd as [Hd1 Hd2].
  assert (Hs : Str.startswith d "/" = false).
  { rewrite <- (append_nil_r d). now apply startswith_sep_append. }
  destruct (string_dec a "") as [->|Ha].
  - rewrite join_nil_l. split; [assumption | now apply endswith_contains].
  - rewrite join_rel by assumption. split.
    + intros E. apply append_eq_nil in E as [E _]. congruence.
    + rewrite <- append_assoc, endswith_append by assumption.
      now apply endswith_contains.
Qed.

Lemma join_assoc (a d r : string) :
  component d = true -> r <> "" -> Str.startswith r "/" = false ->
  join (join a d) r = join a (d +++ "/" +++ r).
Proof.
  intros Hd Hr1 Hr2.
  destruct (join_component a d Hd) as [Hne Hend].
  apply component_spec in Hd as [Hd1 Hd2].
  assert (Hs : Str.startswith d "/" = false).
  { rewrite <- (append_nil_r d). now apply startswith_sep_append. }
  rewrite (join_rel (join a d) r) by assumption.
  unfold glue at 1. rewrite Hend.
  destruct (string_dec a "") as [->|Ha].
  - now rewrite !join_nil_l.
  - rewrite !join_rel; try assumption.
    + now rewrite !append_assoc.
    + now apply startswith_sep_append.
Qed.

Lemma descend_join (source : string) (ds : list string) (file : string) :
  Forall (fun d => component d = true) ds -> component file = true ->
  join (FS.descend source ds) file = join source (Str.join "/" (ds ++ [file])).
Proof.
  intros Hds Hf. revert source.
  induction Hds as [|d ds Hd Hds IH]; intros source; [reflexivity|].
  change (FS.descend source (d :: ds)) with (FS.descend (join source d) ds).
  rewrite IH.
  assert (Hall : Forall (fun x => component x = true) (ds ++ [file])).
  { apply Forall_app. split; [assumption | now constructor]. }
  assert (Hne : ds ++ [file] <> []) by (destruct ds; discriminate).
  destruct (join_component_start _ Hne Hall) as [H1 H2].
  rewrite join_assoc by assumption.
  change ((d :: ds) ++ [file]) with (d :: (ds ++ [file])).
  destruct (ds ++ [file]); [congruence | reflexivity].
Qed.

(** Making [join source r] absolute amounts to joining [r] to the
    absolute form of [source]. *)
Lemma absolute_join (cwd source r : string) :
  isabs cwd = true -> r <> "" -> Str.startswith r "/" = false ->
  let s := if isabs source then source else join cwd source in
  (if isabs (join source r) then join source r else join cwd (join source r))
  = join s r /\ isabs s = true.
Proof.
  intros Hcwd Hr1 Hr2.
  assert (Hc : cwd <> "") by (intros ->; discriminate).
  destruct source as [|c src].
  - rewrite join_nil_l.
    change (isabs "") with false. change (isabs r) with (Str.startswith r "/").
    rewrite Hr2. cbv zeta.
    assert (He : Str.startswith "" "/" = false) by reflexivity.
    rewrite (join_rel cwd "" Hc He), (join_rel cwd r Hc Hr2).
    rewrite join_rel; [| intros E; apply append_eq_nil in E as [E _]; congruence | assumption].
    split; [| now apply isabs_append].
    unfold glue. destruct (Str.endswith cwd sep) eqn:E.
    + cbn [String.append]. rewrite !append_nil_r, E. reflexivity.
    + rewrite append_nil_r, endswith_snoc. now rewrite !append_assoc.
  - assert (Hs : String c src <> "") by discriminate.
    rewrite (join_rel _ r Hs Hr2), isabs_cons_append.
    destruct (isabs (String c src)) eqn:Habs; cbv zeta.
    + split; [now rewrite (join_rel _ r Hs Hr2) | assumption].
    + assert (Hrel : Str.startswith (String c src) "/" = false) by exact Habs.
      rewrite (join_rel cwd (String c src) Hc Hrel).
      rewrite (join_rel cwd); [| assumption |].
      2:{ change (String c src +++ glue (String c src) +++ r)
            with (String c (src +++ glue (String c src) +++ r)).
          rewrite startswith_sep_cons. rewrite startswith_sep_cons in Hrel.
          exact Hrel. }
      rewrite join_rel; [| intros E; apply append_eq_nil in E as [E _]; congruence | assumption].
      split; [| now apply isabs_append].
      rewrite (glue_append cwd (glue cwd) (String c src)) by assumption.
      now rewrite !append_assoc.
Qed.


Lemma valid_name_spec (d : string) :
  FS.valid_name d = true <->
  component d = true /\ d <> "." /\ d <> "..".
Proof.
  unfold FS.valid_name, component.
  rewrite !andb_true_iff, !negb_true_iff, !String.eqb_neq. tauto.
Qed.

Lemma valid_name_component (d : string) :
  FS.valid_name d = true -> component d = true.
Proof. intros H. now apply valid_name_spec in H. Qed.

Lemma norm_step_valid (k : nat) (st : list string) (c : string) :
  FS.valid_name c = true -> norm_step k st c = st ++ [c].
Proof.
  intros H. apply valid_name_spec in H as (Hc & H1 & H2).
  apply component_spec in Hc as [H0 _].
  unfold norm_step.
  apply String.eqb_neq in H0, H1, H2. now rewrite H0, H1, H2.
Qed.

Lemma fold_valid (k : nat) (names st : list string) :
  Forall (fun d => FS.valid_name d = true) names ->
  fold_left (norm_step k) names st = st ++ names.
Proof.
  intros H. revert st. induction H as [|d names Hd _ IH]; intros st; simpl.
  - now rewrite app_nil_r.
  - rewrite norm_step_valid by assumption. rewrite IH, <- app_assoc. reflexivity.
Qed.

Lemma norm_step_pos (k : nat) (st : list string) (c : string) :
  k <> 0 -> norm_step k st c = norm_step 1 st c.
Proof. intros Hk. unfold norm_step. destruct k; [congruence | reflexivity]. Qed.

Lemma fold_pos (k : nat) (comps st : list string) :
  k <> 0 -> fold_left (norm_step k) comps st = fold_left (norm_step 1) comps st.
Proof.
  intros Hk. revert st. induction comps as [|c comps IH]; intros st; simpl.
  - reflexivity.
  - now rewrite norm_step_pos, IH.
Qed.

Lemma fold_component (k : nat) (comps st : list string) :
  Forall (fun x => component x = true) st ->
  Forall (fun x => Str.contains x sep = false) comps ->
  Forall (fun x => component x = true) (fold_left (norm_step k) comps st).
Proof.
  intros Hst Hc. revert st Hst.
  induction Hc as [|c comps Hc _ IH]; intros st Hst; simpl; [assumption|].
  apply IH. unfold norm_step.
  destruct (c =? "")%string eqn:E0; simpl; [assumption|].
  destruct (c =? ".")%string; simpl; [assumption|].
  match goal with |- Forall _ (if ?b then _ else _) => destruct b end.
  - apply Forall_app. split; [assumption|]. constructor; [|constructor].
    apply component_spec. split; [now apply String.eqb_neq | assumption].
  - destruct (negb (is_nil st)); [|assumption].
    apply Forall_forall. intros x Hx. rewrite Forall_forall in Hst.
    apply Hst. revert Hx. clear. induction st as [|a st IH]; simpl; [tauto|].
    destruct st; simpl in *; [tauto|]. intros [->|H]; auto.
Qed.

Lemma split_join_fold (k : nat) (s r : string) :
  s <> "" -> Str.startswith r "/" = false ->
  fold_left (norm_step k) (Str.split sep (join s r)) []
  = fold_left (norm_step k) (Str.split sep r)
      (fold_left (norm_step k) (Str.split sep s) []).
Proof.
  intros Hs Hr. rewrite join_rel by assumption. unfold glue.
  destruct (Str.endswith s sep) eqn:E.
  - destruct (endswith_inv _ _ E) as [s0 ->].
    cbn [String.append]. rewrite append_assoc. cbn [String.append].
    rewrite !split_append, !fold_left_app. reflexivity.
  - change (s +++ "/" +++ r) with (s +++ String sep r).
    now rewrite split_append, fold_left_app.
Qed.

Lemma isabs_initial_slashes (s : string) :
  isabs s = true -> initial_slashes s <> 0.
Proof.
  unfold isabs, initial_slashes. intros ->.
  destruct (_ && _); discriminate.
Qed.

Lemma normpath_absolute (s : string) :
  isabs s = true ->
  components (Str.lstrip sep (normpath s))
  = fold_left (norm_step 1) (Str.split sep s) [].
Proof.
  intros Habs. pose proof (isabs_initial_slashes s Habs) as Hk.
  unfold normpath.
  destruct s as [|c s]; [discriminate|].
  change (String c s =? "")%string with false. cbv zeta.
  rewrite (fold_pos _ _ _ Hk).
  set (cs := fold_left (norm_step 1) (Str.split sep (String c s)) []).
  assert (Hcs : Forall (fun x => component x = true) cs).
  { apply fold_component; [constructor | apply split_contains]. }
  destruct (initial_slashes (String c s)) as [|k]; [congruence|].
  change ((Str.times sep (S k) +++ Str.join "/" cs =? "")%string) with false.
  cbv iota. rewrite lstrip_times.
  destruct cs as [|x cs']; [reflexivity|].
  assert (Hne : x :: cs' <> []) by discriminate.
  destruct (join_component_start _ Hne Hcs) as [H1 H2].
  rewrite lstrip_id by assumption. unfold components.
  apply String.eqb_neq in H1. rewrite H1.
  apply split_join; [assumption|].
  eapply Forall_impl; [|exact Hcs]. intros a Ha.
  now apply component_spec in Ha.
Qed.

Lemma commonprefix_app (cs names : list string) :
  commonprefix cs (cs ++ names) = cs.
Proof.
  induction cs as [|c cs IH]; simpl.
  - destruct names; reflexivity.
  - now rewrite String.eqb_refl, IH.
Qed.

Lemma skipn_length_app {A} (l1 l2 : list A) : skipn (List.length l1) (l1 ++ l2) = l2.
Proof. induction l1; simpl; auto. Qed.

Lemma join_nonempty (a b : string) : b <> "" -> join a b <> "".
Proof.
  intros Hb. unfold join.
  destruct (_ || _); [assumption|].
  destruct (Str.endswith a sep); intros E; apply append_eq_nil in E as [_ E].
  - congruence.
  - discriminate.
Qed.

(** The relative path of a file below [source], named by valid
    directory entries, is the chain of those names. *)
Lemma relpath_inside (cwd source : string) (names : list string) :
  isabs cwd = true -> names <> [] ->
  Forall (fun d => FS.valid_name d = true) names ->
  relpath cwd (join source (Str.join "/" names)) source
  = Some (Str.join "/" names).
Proof.
  intros Hcwd Hne Hall.
  assert (Hcomp : Forall (fun d => component d = true) names).
  { eapply Forall_impl; [|exact Hall]. intros a. apply valid_name_component. }
  destruct (join_component_start _ Hne Hcomp) as [Hr1 Hr2].
  set (r := Str.join "/" names) in *.
  unfold relpath.
  pose proof (join_nonempty source r Hr1) as Hp.
  apply String.eqb_neq in Hp. rewrite Hp. cbv zeta. unfold abspath.
  destruct (absolute_join cwd source r Hcwd Hr1 Hr2) as [Hjoin Habs].
  cbv zeta in Hjoin, Habs. rewrite Hjoin.
  set (s := if isabs source then source else join cwd source) in *.
  assert (Hs : s <> "") by (intros E; rewrite E in Habs; discriminate).
  assert (Habs' : isabs (join s r) = true).
  { rewrite join_rel by assumption. now apply isabs_append. }
  rewrite !normpath_absolute by assumption.
  rewrite split_join_fold by assumption.
  set (cs := fold_left (norm_step 1) (Str.split sep s) []).
  assert (Hsplit : Str.split sep r = names).
  { apply split_join; [assumption|].
    eapply Forall_impl; [|exact Hcomp]. intros a Ha.
    now apply component_spec in Ha. }
  rewrite Hsplit, fold_valid by assumption.
  rewrite commonprefix_app, Nat.sub_diag, skipn_length_app. simpl.
  destruct names; [congruence | reflexivity].
Qed.

End PathFacts.

Section WalkFacts.

Import FS.

Lemma node_induction (P : node -> Prop) :
  P RegularFile -> P SpecialFile ->
  (forall dev es, Forall (fun e => P (snd e)) es -> P (Directory dev es)) ->
  (forall t, P t -> P (Symlink t)) ->
  forall n, P n.
Proof.
  intros Hreg Hspec Hdir Hlink. fix IH 1. intros [| |dev es|t].
  - exact Hreg.
  - exact Hspec.
  - apply Hdir. induction es as [|[d c] es IHes]; constructor.
    + apply IH.
    + exact IHes.
  - apply Hlink, IH.
Qed.

Lemma walk_resolve (fl : bool) (top : string) (n : node) :
  walk fl top (resolve n) = walk fl top n.
Proof. induction n using node_induction; simpl; auto. Qed.

Lemma resolve_idem (n : node) : resolve (resolve n) = resolve n.
Proof. induction n using node_induction; simpl; auto. Qed.

Lemma wf_resolve (n : node) : wf n = true -> wf (resolve n) = true.
Proof. induction n using node_induction; simpl; auto. Qed.

(** With [followlinks=False] only real directories are entered. *)
Lemma enter_real_directory (child : node) :
  is_dir child && (false || negb (islink child)) = true ->
  islink child = false /\ exists dev es, child = Directory dev es.
Proof.
  unfold is_dir. destruct child; simpl; rewrite ?andb_false_r; try discriminate.
  intros _. eauto.
Qed.

Lemma walk_sound (n : node) :
  forall top root subdirs files,
    In (root, subdirs, files) (walk false top n) ->
    exists ds dev es,
      reaches (resolve n) ds (Directory dev es) /\
      root = descend top ds /\ subdirs = dirs es /\ files = nondirs es.
Proof.
  induction n as [| |dev es IH|t IH] using node_induction;
    intros top root subdirs files Hin; simpl in Hin; try contradiction.
  - destruct Hin as [E|Hin].
    + inversion E; subst. exists [], dev, es. repeat split. constructor.
    + apply in_flat_map in Hin as [[d child] [Hd Hin]]. simpl in Hin.
      match type of Hin with
      | In _ (if ?c then _ else _) => destruct c eqn:G; [|destruct Hin]
      end.
      destruct (enter_real_directory _ G) as [Hl (dev' & es' & ->)].
      rewrite Forall_forall in IH.
      destruct (IH _ Hd _ _ _ _ Hin) as (ds & dev2 & es2 & Hr & -> & -> & ->).
      exists (d :: ds), dev2, es2. repeat split.
      simpl. econstructor; eauto.
  - apply IH in Hin. exact Hin.
Qed.

Lemma walk_complete (n : node) (ds : list string) (dev : Z)
    (es : list (string * node)) :
  reaches n ds (Directory dev es) ->
  forall top, In (descend top ds, dirs es, nondirs es) (walk false top n).
Proof.
  intros H. remember (Directory dev es) as m eqn:Em.
  induction H as [n|dev0 es0 d child ds m Hin Hl Hr IH]; intros top; subst.
  - simpl. now left.
  - simpl. right. apply in_flat_map. exists (d, child). split; [assumption|].
    specialize (IH eq_refl (PosixPath.join top d)).
    assert (G : is_dir child && (false || negb (islink child)) = true).
    { rewrite Hl. simpl. rewrite andb_true_r.
      inversion Hr; subst; reflexivity. }
    match goal with
    | |- In _ (if ?c then _ else _) => change c with
          (is_dir child && (false || negb (islink child)))
    end.
    rewrite G. exact IH.
Qed.

Lemma reaches_wf (n : node) (ds : list string) (m : node) :
  reaches n ds m -> wf n = true ->
  wf m = true /\ Forall (fun d => valid_name d = true) ds.
Proof.
  induction 1 as [n|dev es d child ds m Hin Hl Hr IH]; intros Hwf.
  - split; [assumption | constructor].
  - simpl in Hwf. rewrite forallb_forall in Hwf.
    specialize (Hwf _ Hin). simpl in Hwf.
    apply andb_true_iff in Hwf as [Hd Hc].
    destruct (IH Hc) as [Hm Hds]. split; [assumption | now constructor].
Qed.

Lemma in_nondirs (es : list (string * node)) (name : string) :
  In name (nondirs es) <->
  exists child, In (name, child) es /\ is_dir child = false.
Proof.
  unfold nondirs. rewrite in_map_iff. split.
  - intros [[nm child] [E H]]. simpl in E. subst.
    apply filter_In in H as [H1 H2]. simpl in H2.
    apply negb_true_iff in H2. eauto.
  - intros [child [H1 H2]]. exists (name, child). split; [reflexivity|].
    apply filter_In. split; [assumption|]. simpl. now rewrite H2.
Qed.

(** The directories that [os.walk] reports, and their files, are
    those of the tree. *)
Lemma walk_files (tree : option node) (source root file : string) :
  (exists subdirs files,
      In (root, subdirs, files)
         (match tree with Some n => walk false source n | None => [] end)
      /\ In file files)
  <-> exists ds, found tree ds file /\ root = descend source ds.
Proof.
  split.
  - intros (subdirs & files & Hin & Hf). destruct tree as [n|]; [|contradiction].
    apply walk_sound in Hin as (ds & dev & es & Hr & -> & -> & ->).
    apply in_nondirs in Hf as [child [H1 H2]].
    exists ds. split; [|reflexivity]. exists n, dev, es, child. auto.
  - intros (ds & (n & dev & es & child & -> & Hr & H1 & H2) & ->).
    exists (dirs es), (nondirs es). split.
    + rewrite <- walk_resolve. exact (walk_complete _ _ dev _ Hr source).
    + apply in_nondirs. eauto.
Qed.

Lemma found_valid (tree : option node) (ds : list string) (name : string) :
  wf_tree tree = true -> found tree ds name ->
  Forall (fun d => valid_name d = true) (ds ++ [name]).
Proof.
  intros Hwf (n & dev & es & child & -> & Hr & H1 & H2). simpl in Hwf.
  destruct (reaches_wf _ _ _ Hr (wf_resolve _ Hwf)) as [Hm Hds].
  apply Forall_app. split; [assumption|]. constructor; [|constructor].
  simpl in Hm. rewrite forallb_forall in Hm. specialize (Hm _ H1).
  simpl in Hm. now apply andb_true_iff in Hm as [Hm _].
Qed.

End WalkFacts.

Section CollectFacts.

Import FS.

Lemma sequence_some {A} (l : list (option A)) :
  (forall o, In o l -> o <> None) -> exists r, sequence l = Some r.
Proof.
  induction l as [|[a|] l IH]; intros H; simpl.
  - eauto.
  - destruct IH as [r ->]; [intros o Ho; apply H; now right | eauto].
  - exfalso. apply (H None); [now left | reflexivity].
Qed.

Lemma sequence_in {A} (l : list (option A)) (r : list A) :
  sequence l = Some r -> forall x, In x r <-> In (Some x) l.
Proof.
  revert r. induction l as [|[a|] l IH]; intros r H x; simpl in H.
  - inversion H; subst. simpl. tauto.
  - destruct (sequence l) as [r'|]; [|discriminate].
    inversion H; subst. simpl. rewrite (IH r' eq_refl).
    split; intros [E|E]; auto; left; congruence.
  - discriminate.
Qed.

(** What [collectMatchingFiles] yields for a file of the tree. *)
Lemma candidate_found (cwd : string) (tree : option node) (source : string)
    (ds : list string) (name : string) :
  wf_tree tree = true -> PosixPath.isabs cwd = true -> found tree ds name ->
  candidate cwd source (descend source ds) name
  = Some (PosixPath.join (descend source ds) name, Str.join "/" (ds ++ [name])).
Proof.
  intros Hwf Hcwd Hf. pose proof (found_valid _ _ _ Hwf Hf) as Hv.
  assert (Hc : Forall (fun d => PosixPath.component d = true) (ds ++ [name])).
  { eapply Forall_impl; [|exact Hv]. intros a. apply valid_name_component. }
  apply Forall_app in Hc as [Hds Hn]. inversion Hn; subst.
  unfold candidate. rewrite descend_join by assumption.
  rewrite relpath_inside; [reflexivity | assumption | | assumption].
  destruct ds; discriminate.
Qed.

Lemma collect_spec (cwd : string) (tree : option node) (source : string)
    (exts : list string) :
  wf_tree tree = true -> PosixPath.isabs cwd = true ->
  exists l,
    collectMatchingFiles cwd tree source exts = Some l /\
    forall a r,
      In (a, r) l <->
      exists ds name,
        found tree ds name /\ matches exts name = true /\
        a = PosixPath.join (descend source ds) name /\
        r = Str.join "/" (ds ++ [name]).
Proof.
  intros Hwf Hcwd. unfold collectMatchingFiles.
  set (walked := match tree with Some n => walk false source n | None => [] end).
  set (items := flat_map _ walked).
  assert (Hitems : forall o, In o items <->
            exists ds name, found tree ds name /\ matches exts name = true /\
                            o = candidate cwd source (descend source ds) name).
  { intros o. unfold items. rewrite in_flat_map. split.
    - intros ([[root subdirs] files] & Hw & Ho).
      apply in_map_iff in Ho as (file & <- & Hfile).
      apply filter_In in Hfile as [Hfile Hm].
      destruct (proj1 (walk_files tree source root file)) as (ds & Hf & ->).
      { exists subdirs, files. split; assumption. }
      exists ds, file. auto.
    - intros (ds & name & Hf & Hm & ->).
      destruct (proj2 (walk_files tree source (descend source ds) name))
        as (subdirs & files & Hw & Hfile).
      { exists ds. split; [assumption | reflexivity]. }
      exists (descend source ds, subdirs, files). split; [assumption|].
      apply in_map_iff. exists name. split; [reflexivity|].
      apply filter_In. split; assumption. }
  destruct (sequence_some items) as [l Hl].
  { intros o Ho. apply Hitems in Ho as (ds & name & Hf & _ & ->).
    rewrite (candidate_found _ _ _ _ _ Hwf Hcwd Hf). discriminate. }
  exists l. split; [assumption|]. intros a r.
  rewrite (sequence_in _ _ Hl), Hitems. split.
  - intros (ds & name & Hf & Hm & E).
    rewrite (candidate_found _ _ _ _ _ Hwf Hcwd Hf) in E.
    inversion E; subst. exists ds, name. auto.
  - intros (ds & name & Hf & Hm & -> & ->). exists ds, name.
    rewrite (candidate_found _ _ _ _ _ Hwf Hcwd Hf). auto.
Qed.

End CollectFacts.

Section SuffixFacts.

Import FS.

Lemma append_inj_l (a x y : string) : a +++ x = a +++ y -> x = y.
Proof. induction a as [|c a IH]; simpl; [auto | intros H; inversion H; auto]. Qed.

Lemma join_inj (source r1 r2 : string) :
  Str.startswith r1 "/" = false -> Str.startswith r2 "/" = false ->
  PosixPath.join source r1 = PosixPath.join source r2 -> r1 = r2.
Proof.
  intros H1 H2. destruct (string_dec source "") as [->|Hs].
  - now rewrite !join_nil_l.
  - rewrite !join_rel by assumption. intros E.
    now apply append_inj_l, append_inj_l in E.
Qed.

(** Two files of a well-formed tree have different paths. *)
Lemma descend_join_inj (source : string) (ds ds' : list string)
    (name name' : string) :
  Forall (fun d => valid_name d = true) (ds ++ [name]) ->
  Forall (fun d => valid_name d = true) (ds' ++ [name']) ->
  PosixPath.join (descend source ds) name
  = PosixPath.join (descend source ds') name' ->
  ds = ds' /\ name = name'.
Proof.
  intros Hv Hv'.
  assert (Hc : forall l, Forall (fun d => valid_name d = true) l ->
                         Forall (fun d => PosixPath.component d = true) l).
  { intros l H. eapply Forall_impl; [|exact H]. intros a.
    apply valid_name_component. }
  assert (Hs : forall l, Forall (fun d => PosixPath.component d = true) l ->
                 Forall (fun x => Str.contains x PosixPath.sep = false) l).
  { intros l H. eapply Forall_impl; [|exact H]. intros a Ha.
    now apply component_spec in Ha. }
  pose proof (Hc _ Hv) as C. pose proof (Hc _ Hv') as C'.
  assert (N : ds ++ [name] <> []) by (destruct ds; discriminate).
  assert (N' : ds' ++ [name'] <> []) by (destruct ds'; discriminate).
  pose proof C as D. pose proof C' as D'.
  apply Forall_app in D as [D1 D2]. apply Forall_app in D' as [D1' D2'].
  inversion D2; subst. inversion D2'; subst.
  rewrite !descend_join by assumption. intros E.
  apply join_inj in E;
    [| now apply join_component_start | now apply join_component_start].
  apply (f_equal (Str.split PosixPath.sep)) in E.
  rewrite !split_join in E by auto.
  now apply app_inj_tail in E.
Qed.

Lemma lower_append (a b : string) :
  Str.lower (a +++ b) = Str.lower a +++ Str.lower b.
Proof. induction a as [|c a IH]; simpl; [reflexivity | now rewrite IH]. Qed.





Lemma rfind_absent (c : ascii) (s : string) :
  Str.contains s c = false -> Str.rfind c s = (-1)%Z.
Proof.
  induction s as [|a s IH]; [reflexivity|]. simpl. intros H.
  apply orb_false_iff in H as [Ha Hs]. now rewrite (IH Hs), Ha.
Qed.

Lemma rfind_last (c : ascii) (stem body : string) :
  Str.contains body c = false ->
  Str.rfind c (stem +++ String c body) = Z.of_nat (String.length stem).
Proof.
  intros Hb. induction stem as [|a stem IH].
  - simpl. now rewrite (rfind_absent _ _ Hb), Ascii.eqb_refl.
  - cbn [String.append Str.rfind String.length]. rewrite IH.
    destruct (0 <=? Z.of_nat (String.length stem))%Z eqn:E; [lia|].
    apply Z.leb_gt in E. lia.
Qed.

Lemma slice_from_append (stem x : string) :
  Str.slice_from (String.length stem) (stem +++ x) = x.
Proof. induction stem as [|a stem IH]; [now destruct x | exact IH]. Qed.

Lemma name_component (n : string) :
  PosixPath.component n = true -> n <> "." -> PurePath.name n = n.
Proof.
  intros Hc Hd. apply component_spec in Hc as [H0 Hs].
  unfold PurePath.name, PurePath.parts. rewrite split_no_sep by assumption.
  simpl. apply String.eqb_neq in H0, Hd. now rewrite H0, Hd.
Qed.

(** [Path("<stem>.<body>").suffix == ".<body>"]. *)
Lemma suffix_extension (stem body : string) :
  stem <> "" -> Str.contains stem PosixPath.sep = false ->
  body <> "" -> Str.contains body "." = false ->
  Str.contains body PosixPath.sep = false ->
  PurePath.suffix (stem +++ String "." body) = String "." body.
Proof.
  intros Hs1 Hs2 Hb1 Hb2 Hb3. unfold PurePath.suffix.
  rewrite name_component.
  - rewrite rfind_last by assumption. rewrite Nat2Z.id, slice_from_append.
    rewrite length_append. cbn [String.length].
    destruct stem as [|a stem]; [congruence|].
    destruct body as [|b body]; [congruence|].
    cbn [String.length].
    replace (0 <? Z.of_nat (S (String.length stem)))%Z with true
      by (symmetry; apply Z.ltb_lt; lia).
    replace (Z.of_nat (S (String.length stem)) <?
             Z.of_nat (S (String.length stem) + S (S (String.length body))) - 1)%Z
      with true by (symmetry; apply Z.ltb_lt; lia).
    reflexivity.
  - apply component_spec. split.
    + intros E. apply append_eq_nil in E as [E _]. congruence.
    + rewrite contains_append. cbn [Str.contains].
      rewrite Hs2, Hb3. reflexivity.
  - destruct stem as [|a [|a' stem]]; [congruence | |]; simpl.
    + destruct body; [congruence | intros E; inversion E].
    + intros E; inversion E.
Qed.

(** [Path(".<body>").suffix == ""]: the only dot leads the name. *)
Lemma suffix_dotfile (body : string) :
  Str.contains body "." = false -> Str.contains body PosixPath.sep = false ->
  PurePath.suffix (String "." body) = "".
Proof.
  intros Hb1 Hb2. unfold PurePath.suffix.
  destruct body as [|b body].
  - reflexivity.
  - rewrite name_component.
    + change (String "." (String b body)) with ("" +++ String "." (String b body)).
      rewrite (rfind_last "." "" _ Hb1). reflexivity.
    + apply component_spec. split; [discriminate|].
      cbn [Str.contains] in *. now rewrite Hb2.
    + discriminate.
Qed.

Lemma is_extension_spec (e : string) :
  is_extension e = true ->
  exists body, e = String "." body /\ body <> "" /\
               Str.contains body "." = false /\
               Str.contains body PosixPath.sep = false /\
               Str.lower e = e.
Proof.
  destruct e as [|c body]; [discriminate|]. unfold is_extension.
  rewrite !andb_true_iff, !negb_true_iff.
  intros ((((Hc & H0) & H1) & H2) & H3).
  apply Ascii.eqb_eq in Hc. subst c.
  apply String.eqb_neq in H0. apply String.eqb_eq in H3.
  exists body. auto.
Qed.

Lemma mem_spec (x : string) (l : list string) : Str.mem x l = true <-> In x l.
Proof.
  unfold Str.mem. rewrite existsb_exists. split.
  - intros (y & Hy & E). apply String.eqb_eq in E. now subst.
  - intros H. exists x. split; [assumption | apply String.eqb_refl].
Qed.


End SuffixFacts.

(** * File collection: C1, C2, C4, C10 *)
Section Collection.

Import FS.

Lemma prefix_append (s x : string) : String.prefix s (s +++ x) = true.
Proof.
  induction s as [|c s IH]; [now destruct x|]. simpl.
  destruct (ascii_dec c c); [exact IH | congruence].
Qed.

Lemma join_prefix (source r : string) :
  Str.startswith r "/" = false ->
  String.prefix source (PosixPath.join source r) = true.
Proof.
  intros Hr. destruct (string_dec source "") as [->|Hs].
  - rewrite join_nil_l. now destruct r.
  - rewrite join_rel by assumption. apply prefix_append.
Qed.

Lemma example_yield :
  collectMatchingFiles "/work" (Some example_home) "/home/u" extensions
  = Some [("/home/u/report.pdf", "report.pdf");
          ("/home/u/notes.TXT", "notes.TXT");
          ("/home/u/docs/a.md", "docs/a.md");
          ("/home/u/docs/sub/b.Py", "docs/sub/b.Py");
          ("/home/u/usb/c.txt", "usb/c.txt")].
Proof. reflexivity. Qed.

(** A file whose suffix is not listed is not among the yielded paths. *)
Lemma unmatched_not_yielded (cwd : string) (tree : option node)
    (source : string) (exts : list string) (l : list (string * string))
    (ds : list string) (name r : string) :
  wf_tree tree = true -> PosixPath.isabs cwd = true ->
  collectMatchingFiles cwd tree source exts = Some l ->
  found tree ds name -> matches exts name = false ->
  ~ In (PosixPath.join (descend source ds) name, r) l.
Proof.
  intros Hwf Hcwd Hl Hf Hm Hin.
  destruct (collect_spec cwd tree source exts Hwf Hcwd) as (l' & Hl' & Hspec).
  rewrite Hl in Hl'. inversion Hl'; subst l'.
  apply Hspec in Hin as (ds' & name' & Hf' & Hm' & E & _).
  apply descend_join_inj in E as [_ ->];
    [| now apply (found_valid tree) | now apply (found_valid tree)].
  congruence.
Qed.



(** C2. Joining the source root with a yielded relative path gives
    back the yielded absolute path. *)
Theorem join_relpath_roundtrip (cwd : string) (tree : option node)
    (source : string) (exts : list string) :
  wf_tree tree = true -> PosixPath.isabs cwd = true ->
  exists l,
    collectMatchingFiles cwd tree source exts = Some l /\
    forall absPath relPath,
      In (absPath, relPath) l -> PosixPath.join source relPath = absPath.
Proof.
  intros Hwf Hcwd.
  destruct (collect_spec cwd tree source exts Hwf Hcwd) as (l & Hl & Hspec).
  exists l. split; [assumption|]. intros a r Hin.
  apply Hspec in Hin as (ds & name & Hf & _ & -> & ->).
  pose proof (found_valid _ _ _ Hwf Hf) as Hv.
  assert (Hc : Forall (fun d => PosixPath.component d = true) (ds ++ [name])).
  { eapply Forall_impl; [|exact Hv]. intros x. apply valid_name_component. }
  apply Forall_app in Hc as [Hds Hn]. inversion Hn; subst.
  symmetry. now apply descend_join.
Qed.

Lemma join_relpath_roundtrip_witness :
  exists l,
    collectMatchingFiles "/work" (Some example_home) "home/u/" extensions = Some l /\
    forall absPath relPath,
      In (absPath, relPath) l -> PosixPath.join "home/u/" relPath = absPath.
Proof.
  apply (join_relpath_roundtrip "/work" (Some example_home) "home/u/" extensions);
    reflexivity.
Defined.

(** C4, as stated, fails: a directory beneath the root that is the
    mount point of another filesystem is walked like any other. *)
Lemma walk_crosses_mount_point :
  ~ stays_on_filesystem "/work" (Some example_home) "/home/u" extensions.
Proof.
  intros H.
  destruct (H _ ["usb"] "c.txt" "usb/c.txt" example_yield)
    as (n & dev & es & es' & En & Er & Hr).
  - exists example_home, 2%Z, [("c.txt", RegularFile)], RegularFile.
    repeat split; try (simpl; auto; fail).
    simpl. eapply reaches_down with (child := Directory 2 [("c.txt", RegularFile)]).
    + simpl. do 6 right. now left.
    + reflexivity.
    + constructor.
  - simpl. do 4 right. now left.
  - inversion En; subst n. simpl in Er. inversion Er; subst dev es.
    simpl in Hr. inversion Hr as [|? ? ? child ? ? Hin Hl Hc]; subst.
    inversion Hc; subst.
    simpl in Hin.
    repeat (destruct Hin as [Hin|Hin]; [discriminate Hin|]).
    exact Hin.
Qed.

(** C4, amended.  Every yielded path is the source root joined with
    a chain of names of directory entries, none of them [".."], each
    directory of the chain being a real directory and not a symbolic
    link; so the path has the root as a prefix. *)
Theorem walk_stays_below_root (cwd : string) (tree : option node)
    (source : string) (exts : list string) :
  wf_tree tree = true -> PosixPath.isabs cwd = true ->
  exists l,
    collectMatchingFiles cwd tree source exts = Some l /\
    forall a r, In (a, r) l ->
      exists ds name,
        found tree ds name /\
        Forall (fun d => valid_name d = true) (ds ++ [name]) /\
        a = PosixPath.join source (Str.join "/" (ds ++ [name])) /\
        String.prefix source a = true.
Proof.
  intros Hwf Hcwd.
  destruct (collect_spec cwd tree source exts Hwf Hcwd) as (l & Hl & Hspec).
  exists l. split; [assumption|]. intros a r Hin.
  apply Hspec in Hin as (ds & name & Hf & _ & -> & ->).
  pose proof (found_valid _ _ _ Hwf Hf) as Hv.
  assert (Hc : Forall (fun d => PosixPath.component d = true) (ds ++ [name])).
  { eapply Forall_impl; [|exact Hv]. intros x. apply valid_name_component. }
  assert (Hne : ds ++ [name] <> []) by (destruct ds; discriminate).
  destruct (join_component_start _ Hne Hc) as [_ Hstart].
  pose proof Hc as Hc'. apply Forall_app in Hc' as [Hds Hn]. inversion Hn; subst.
  exists ds, name. rewrite descend_join by assumption.
  repeat split; try assumption. now apply join_prefix.
Qed.

Lemma walk_stays_below_root_witness :
  exists l,
    collectMatchingFiles "/work" (Some example_home) "/home/u" extensions = Some l /\
    forall a r, In (a, r) l ->
      exists ds name,
        found (Some example_home) ds name /\
        Forall (fun d => valid_name d = true) (ds ++ [name]) /\
        a = PosixPath.join "/home/u" (Str.join "/" (ds ++ [name])) /\
        String.prefix "/home/u" a = true.
Proof.
  apply (walk_stays_below_root "/work" (Some example_home) "/home/u" extensions);
    reflexivity.
Defined.

Lemma extensions_well_formed : forallb is_extension extensions = true.
Proof. reflexivity. Qed.

(** C10. A file whose whole name is a listed extension (a dotfile
    such as [.txt]) has an empty suffix and is never yielded. *)
Theorem dotfile_extension_excluded (cwd : string) (tree : option node)
    (source e : string) :
  wf_tree tree = true -> PosixPath.isabs cwd = true -> In e extensions ->
  PurePath.suffix e = "" /\
  exists l,
    collectMatchingFiles cwd tree source extensions = Some l /\
    forall ds r,
      found tree ds e -> ~ In (PosixPath.join (descend source ds) e, r) l.
Proof.
  intros Hwf Hcwd He.
  pose proof extensions_well_formed as Hext.
  rewrite forallb_forall in Hext. specialize (Hext e He).
  apply is_extension_spec in Hext as (body & -> & _ & Hb1 & Hb2 & _).
  pose proof (suffix_dotfile body Hb1 Hb2) as Hsuf.
  split; [assumption|].
  destruct (collect_spec cwd tree source extensions Hwf Hcwd) as (l & Hl & _).
  exists l. split; [assumption|]. intros ds r Hf.
  apply (unmatched_not_yielded cwd tree source extensions l ds _ r);
    try assumption.
  unfold matches. rewrite Hsuf. reflexivity.
Qed.

Lemma dotfile_extension_excluded_witness :
  PurePath.suffix ".txt" = "" /\
  exists l,
    collectMatchingFiles "/work" (Some example_home) "/home/u" extensions = Some l /\
    forall ds r,
      found (Some example_home) ds ".txt" ->
      ~ In (PosixPath.join (descend "/home/u" ds) ".txt", r) l.
Proof.
  apply (dotfile_extension_excluded "/work" (Some example_home) "/home/u" ".txt");
    [reflexivity | reflexivity |].
  simpl. do 2 right. now left.
Defined.

End Collection.

(** * Runs of the script *)
Section RunFacts.

Context {A B : Type}.
Variable p : event -> bool.

Lemma adds_weaken (n m : nat) (c : M A) : n <= m -> adds p n c -> adds p m c.
Proof.
  intros Hle H s. destruct (H s) as (new & E & L). exists new. split; [assumption | lia].
Qed.

Lemma adds_ret (a : A) : adds p 0 (ret a).
Proof. intros s. exists []. split; [reflexivity | simpl; lia]. Qed.

Lemma adds_raise (e : exn) : adds p 0 (@raise A e).
Proof. intros s. exists []. split; [reflexivity | simpl; lia]. Qed.

Lemma adds_call_quiet (e : event) (answer : list event -> result A) :
  p e = false -> adds p 0 (call e answer).
Proof. intros He s. exists [e]. split; [reflexivity | simpl; rewrite He; simpl; lia]. Qed.

Lemma adds_call (e : event) (answer : list event -> result A) :
  adds p 1 (call e answer).
Proof. intros s. exists [e]. split; [reflexivity | simpl; destruct (p e); simpl; lia]. Qed.

Lemma adds_bind (n m : nat) (c : M A) (k : A -> M B) :
  adds p n c -> (forall a, adds p m (k a)) -> adds p (n + m) (bind c k).
Proof.
  intros Hc Hk s. unfold bind. destruct (Hc s) as (new1 & E1 & L1).
  destruct (c s) as [[a|e] s1]; simpl in E1.
  - destruct (Hk a s1) as (new2 & E2 & L2). exists (new2 ++ new1).
    rewrite E2, E1, app_assoc, filter_app, length_app. split; [reflexivity | lia].
  - exists new1. simpl. split; [assumption | lia].
Qed.

(** As [adds_bind], looking only at the values that [c] can return. *)
Lemma adds_bind_ret (n m : nat) (c : M A) (k : A -> M B) :
  adds p n c ->
  (forall a, (exists s, fst (c s) = Ret a) -> adds p m (k a)) ->
  adds p (n + m) (bind c k).
Proof.
  intros Hc Hk s. unfold bind. destruct (Hc s) as (new1 & E1 & L1).
  destruct (c s) as [[a|e] s1] eqn:Ec; simpl in E1.
  - destruct (Hk a) with (s := s1) as (new2 & E2 & L2).
    { exists s. now rewrite Ec. }
    exists (new2 ++ new1).
    rewrite E2, E1, app_assoc, filter_app, length_app. split; [reflexivity | lia].
  - exists new1. simpl. split; [assumption | lia].
Qed.

Lemma adds_try_except (n m : nat) (body : M A) (handles : exn -> bool)
    (handler : exn -> M A) :
  adds p n body -> (forall e, adds p m (handler e)) ->
  adds p (n + m) (try_except body handles handler).
Proof.
  intros Hb Hh s. unfold try_except. destruct (Hb s) as (new1 & E1 & L1).
  destruct (body s) as [[a|e] s1]; simpl in E1.
  - exists new1. simpl. split; [assumption | lia].
  - destruct (handles e).
    + destruct (Hh e s1) as (new2 & E2 & L2). exists (new2 ++ new1).
      rewrite E2, E1, app_assoc, filter_app, length_app. split; [reflexivity | lia].
    + exists new1. simpl. split; [assumption | lia].
Qed.

Lemma adds_try_finally (n m : nat) (body : M A) (final : M unit) :
  adds p n body -> adds p m final -> adds p (n + m) (try_finally body final).
Proof.
  intros Hb Hf s. unfold try_finally. destruct (Hb s) as (new1 & E1 & L1).
  destruct (body s) as [r s1]; simpl in E1.
  destruct (Hf s1) as (new2 & E2 & L2).
  destruct (final s1) as [[u|e] s2]; simpl in E2; exists (new2 ++ new1);
    simpl; rewrite E2, E1, app_assoc, filter_app, length_app; split;
    (reflexivity || lia).
Qed.

End RunFacts.

(** Structural steps for a computation that adds no event of the kind
    under consideration. *)
Ltac quiet_step :=
  match goal with
  | |- forall _, _ => intro
  | |- adds _ _ (ret _) => apply adds_ret
  | |- adds _ _ (raise _) => apply adds_raise
  | |- adds _ _ (bind _ _) => apply (adds_bind _ 0 0)
  | |- adds _ _ (try_except _ _ _) => apply (adds_try_except _ 0 0)
  | |- adds _ _ (try_finally _ _) => apply (adds_try_finally _ 0 0)
  | |- adds _ _ (call _ _) => apply adds_call_quiet; solve [reflexivity | auto]
  | |- adds _ _ (print _) => unfold print
  | |- adds _ _ (import_ _ _) => unfold import_
  | |- adds _ _ (run _ _) => unfold run
  | |- adds _ _ (if ?b then _ else _) => destruct b
  | |- adds _ _ (match ?x with _ => _ end) => destruct x
  | |- adds _ _ (let _ := _ in _) => cbv zeta
  end.

Ltac quiet := repeat quiet_step.

Section DiscoveryRuns.

Variable env : Env.
Variable p : event -> bool.
Hypothesis p_print : forall m, p (Print m) = false.
Hypothesis p_ctypes : p (Import "ctypes") = false.
Hypothesis p_drives : p GetLogicalDrives = false.
Hypothesis p_type : forall d, p (GetDriveTypeW d) = false.
Hypothesis p_exists : forall x, p (Exists x) = false.
Hypothesis p_listdir : forall x, p (Listdir x) = false.
Hypothesis p_ismount : forall x, p (Ismount x) = false.

Lemma drive_loop_quiet (ls : list ascii) :
  forall bitmask drives, adds p 0 (drive_loop env ls bitmask drives).
Proof. induction ls as [|l ls IH]; intros; simpl; quiet; auto. Qed.

Lemma entry_loop_quiet (mountPoint : string) (entries : list string) :
  forall drives, adds p 0 (entry_loop env mountPoint entries drives).
Proof. induction entries as [|e es IH]; intros; simpl; quiet; auto. Qed.

Lemma mount_loop_quiet (mps : list string) :
  forall drives, adds p 0 (mount_loop env mps drives).
Proof.
  induction mps as [|m mps IH]; intros; simpl; quiet; auto.
  apply entry_loop_quiet.
Qed.

Lemma findDrive_quiet (username : string) : adds p 0 (findDrive env username).
Proof.
  unfold findDrive. quiet; auto using drive_loop_quiet, mount_loop_quiet.
Qed.

End DiscoveryRuns.

Section InstallerRuns.

Variable env : Env.
Variable p : event -> bool.
Hypothesis p_print : forall m, p (Print m) = false.
Hypothesis p_run : forall cmd, p (Run cmd) = false.
Hypothesis p_ensurepip_import : p (Import "ensurepip") = false.
Hypothesis p_urllib : p (Import "urllib.request") = false.
Hypothesis p_tempfile : p (Import "tempfile") = false.
Hypothesis p_os : p (Import "os") = false.
Hypothesis p_bootstrap : p EnsurepipBootstrap = false.
Hypothesis p_tmp : p NamedTemporaryFile = false.
Hypothesis p_url : forall u f, p (Urlretrieve u f) = false.
Hypothesis p_exists : forall x, p (Exists x) = false.
Hypothesis p_remove : forall x, p (Remove x) = false.

Lemma pip_loop_quiet (cmds : list (list string)) : adds p 0 (pip_loop env cmds).
Proof. induction cmds as [|c cmds IH]; simpl; quiet; auto. Qed.

Lemma NamedTemporaryFile_quiet : adds p 0 (tempfile_NamedTemporaryFile env).
Proof.
  intros s. unfold tempfile_NamedTemporaryFile.
  exists [NamedTemporaryFile].
  destruct (mkstemp env (trace s)); simpl; rewrite p_tmp; simpl; split;
    (reflexivity || lia).
Qed.

Lemma bind_tmpFile_quiet (name : string) : adds p 0 (bind_tmpFile name).
Proof. intros s. exists []. simpl. split; [reflexivity | lia]. Qed.

Lemma enter_frame_quiet : adds p 0 enter_frame.
Proof. intros s. exists []. simpl. split; [reflexivity | lia]. Qed.

Lemma remove_tmpFile_quiet : adds p 0 remove_tmpFile.
Proof.
  intros s. unfold remove_tmpFile, os_remove.
  destruct (tmpFile s) as [name|].
  - destruct (Str.mem name (tmpfiles s)).
    + exists [Remove name; Exists name]. simpl.
      rewrite p_remove, p_exists. simpl. split; [reflexivity | lia].
    + exists [Exists name]. simpl. rewrite p_exists. simpl.
      split; [reflexivity | lia].
  - exists []. simpl. split; [reflexivity | lia].
Qed.

Lemma get_pip_quiet : adds p 0 (get_pip env).
Proof.
  unfold get_pip, tryPipInstall.
  quiet; auto using pip_loop_quiet, NamedTemporaryFile_quiet,
           bind_tmpFile_quiet, remove_tmpFile_quiet.
Qed.

Lemma ensure_pip_quiet : adds p 0 (ensure_pip env).
Proof. unfold ensure_pip, tryPipInstall. quiet; auto using pip_loop_quiet. Qed.

Lemma installPy7zr_quiet : adds p 0 (installPy7zr env).
Proof.
  unfold installPy7zr, tryPipInstall.
  quiet; auto using pip_loop_quiet, enter_frame_quiet, ensure_pip_quiet,
           get_pip_quiet.
Qed.

Hypothesis p_py7zr : p (Import "py7zr") = false.

Lemma load_py7zr_quiet : adds p 0 (load_py7zr env).
Proof. unfold load_py7zr. quiet; auto using installPy7zr_quiet. Qed.

End InstallerRuns.

Section TierRuns.

Variable env : Env.

Lemma cliMethod_adds (p : event -> bool) (source destination username : string) :
  (forall m, p (Print m) = false) -> (forall cmd, p (Run cmd) = false) ->
  adds p 1 (cliMethod env source destination username).
Proof.
  intros p_print p_run. unfold cliMethod. cbv zeta.
  apply (adds_bind _ 0 1); [quiet|]. intros _.
  apply (adds_bind _ 1 0); [apply adds_call|].
  intros [|f fs]; quiet.
Qed.

Lemma cliMethod_quiet (p : event -> bool) (source destination username : string) :
  (forall m, p (Print m) = false) -> (forall cmd, p (Run cmd) = false) ->
  (forall top, p (Walk top) = false) ->
  adds p 0 (cliMethod env source destination username).
Proof. intros p_print p_run p_walk. unfold cliMethod, collect. quiet. Qed.

Lemma write_loop_quiet (p : event -> bool) (files : list (string * string)) :
  (forall f a, p (SevenZipWrite f a) = false) ->
  adds p 0 (write_loop env files).
Proof. intros p_write. induction files as [|[f a] files IH]; simpl; quiet; auto. Qed.

Lemma write_archive_walk (archivePath : string) (files : list (string * string)) :
  adds is_walk 0 (write_archive env archivePath files).
Proof.
  unfold write_archive, with_SevenZipFile. quiet.
  now apply write_loop_quiet.
Qed.

Lemma write_archive_open (archivePath : string) (files : list (string * string)) :
  adds is_open 1 (write_archive env archivePath files).
Proof.
  unfold write_archive, with_SevenZipFile.
  apply (adds_try_except _ 1 0); [|quiet].
  apply (adds_bind _ 1 0); [|quiet].
  apply (adds_bind _ 1 0); [apply adds_call|]. intros _.
  quiet. now apply write_loop_quiet.
Qed.

Lemma py7zrMethod_walk (source destination username : string) :
  adds is_walk 1 (py7zrMethod env source destination username).
Proof.
  unfold py7zrMethod.
  apply (adds_bind _ 0 1); [now apply load_py7zr_quiet|].
  intros [b|]; [apply (adds_weaken _ 0 1); [lia | quiet]|]. cbv zeta.
  apply (adds_bind _ 0 1); [quiet|]. intros _.
  apply (adds_bind _ 1 0); [apply adds_call|].
  intros [|f fs]; [quiet | apply write_archive_walk].
Qed.

Lemma py7zrMethod_open (source destination username : string) :
  adds is_open 1 (py7zrMethod env source destination username).
Proof.
  unfold py7zrMethod.
  apply (adds_bind _ 0 1); [now apply load_py7zr_quiet|].
  intros [b|]; [apply (adds_weaken _ 0 1); [lia | quiet]|]. cbv zeta.
  apply (adds_bind _ 0 1); [quiet|]. intros _.
  apply (adds_bind _ 0 1); [unfold collect; quiet|].
  intros [|f fs]; [apply (adds_weaken _ 0 1); [lia | quiet]
                  | apply write_archive_open].
Qed.

Lemma main_walks_twice : adds is_walk 2 (main env).
Proof.
  unfold main. cbv zeta.
  apply (adds_bind _ 0 2); [now apply findDrive_quiet|].
  intros [drive|]; [|apply (adds_weaken _ 0 2); [lia | quiet]].
  destruct (drive =? "")%string; [apply (adds_weaken _ 0 2); [lia | quiet]|].
  apply (adds_bind _ 1 1); [now apply cliMethod_adds|].
  intros [|]; [apply (adds_weaken _ 0 1); [lia | quiet]|].
  apply (adds_bind _ 1 0); [apply py7zrMethod_walk|].
  intros [|]; quiet.
Qed.

Lemma main_opens_once : adds is_open 1 (main env).
Proof.
  unfold main. cbv zeta.
  apply (adds_bind _ 0 1); [now apply findDrive_quiet|].
  intros [drive|]; [|apply (adds_weaken _ 0 1); [lia | quiet]].
  destruct (drive =? "")%string; [apply (adds_weaken _ 0 1); [lia | quiet]|].
  apply (adds_bind _ 0 1); [now apply cliMethod_quiet|].
  intros [|]; [apply (adds_weaken _ 0 1); [lia | quiet]|].
  apply (adds_bind _ 1 0); [apply py7zrMethod_open|].
  intros [|]; quiet.
Qed.

End TierRuns.

(** * The tiers and the orchestrator: C5, C6 *)
Section Tiers.

Variable env : Env.

Lemma filter_length_nil {X} (p : X -> bool) (l : list X) :
  List.length (filter p l) <= 0 -> filter p l = [].
Proof. destruct (filter p l); simpl; [reflexivity | lia]. Qed.

(** [load_py7zr] returns from [py7zrMethod] only to report failure. *)
Lemma load_py7zr_returns_false (s s' : state) (b : bool) :
  load_py7zr env s = (Ret (Some b), s') -> b = false.
Proof.
  unfold load_py7zr, try_except, bind, import_, call, ret, print.
  destruct (import_module env (trace s) "py7zr") as [[]|e]; [discriminate|].
  destruct (is_ImportError e); [|discriminate].
  destruct (installPy7zr env (log (Import "py7zr") s)) as [[[|]|e'] s1];
    simpl; try discriminate.
  - destruct (import_module env (trace s1) "py7zr"); discriminate.
  - intros H. now inversion H.
Qed.


(** C6. When tier 1 returns [True], [main] ends with its report and
    has made none of the calls of the library tier; after tier 2
    returns, [main] only prints the outcome; in every run there are
    at most two walks and the archive writer is opened at most
    once. *)
Theorem tier2_only_after_tier1_fails :
  (forall s drive s1 s2,
     findDrive env (getuser env) s = (Ret (Some drive), s1) -> drive <> "" ->
     cliMethod env (home env) drive (getuser env) s1 = (Ret true, s2) ->
     main env s
     = (Ret tt, log (Print "[INFO] Extraction complete using cliMethod().") s2) /\
     exists new,
       trace (snd (main env s)) = new ++ trace s /\
       filter is_library_event new = []) /\
  (forall s drive s1 s2 b s3,
     findDrive env (getuser env) s = (Ret (Some drive), s1) -> drive <> "" ->
     cliMethod env (home env) drive (getuser env) s1 = (Ret false, s2) ->
     py7zrMethod env (home env) drive (getuser env) s2 = (Ret b, s3) ->
     main env s
     = (Ret tt,
        log (Print (if b then "[INFO] Extraction complete using py7zrMethod()."
                    else "[ERROR] Failed to extract files.")) s3)) /\
  adds is_walk 2 (main env) /\
  adds is_open 1 (main env).
Proof.
split; [|split; [|split]].
- intros s drive s1 s2 Hf Hd Hc.
  assert (Hmain : main env s
                  = (Ret tt, log (Print "[INFO] Extraction complete using cliMethod().") s2)).
  { unfold main, bind. rewrite Hf. apply String.eqb_neq in Hd.
    now rewrite Hd, Hc. }
  split; [exact Hmain|].
  destruct (findDrive_quiet env is_library_event) with (username := getuser env) (s := s)
    as (new1 & E1 & L1); try reflexivity.
  destruct (cliMethod_quiet env is_library_event (home env) drive (getuser env))
    with (s := s1) as (new2 & E2 & L2); try reflexivity.
  rewrite Hf in E1. rewrite Hc in E2. simpl in E1, E2.
  exists (Print "[INFO] Extraction complete using cliMethod()." :: new2 ++ new1).
  split.
  + rewrite Hmain. simpl. now rewrite E2, E1, app_assoc.
  + simpl. rewrite filter_app.
    now rewrite (filter_length_nil _ _ L1), (filter_length_nil _ _ L2).
- intros s drive s1 s2 b s3 Hf Hd Hc Hp.
  unfold main, bind. rewrite Hf. apply String.eqb_neq in Hd. rewrite Hd, Hc, Hp.
  destruct b; reflexivity.
- apply main_walks_twice.
- apply main_opens_once.
Qed.

End Tiers.

(** * Volume discovery: C9 *)
Section Discovery.

Variable env : Env.
Variable v : Volumes.
Variable t : list event.
Hypothesis Hobs : observes env v t.














End Discovery.

(** * The installer: C3, C7, C8 *)
Section Inversion.

Context {A B : Type}.

Lemma bind_ret_inv (c : M A) (k : A -> M B) (s s' : state) (b : B) :
  bind c k s = (Ret b, s') ->
  exists a s1, c s = (Ret a, s1) /\ k a s1 = (Ret b, s').
Proof.
  unfold bind. destruct (c s) as [[a|e] s1]; [eauto | discriminate].
Qed.

Lemma try_except_ret_inv (body : M A) (handles : exn -> bool)
    (handler : exn -> M A) (s s' : state) (a : A) :
  try_except body handles handler s = (Ret a, s') ->
  body s = (Ret a, s') \/
  exists e s1, body s = (Raise e, s1) /\ handles e = true /\
               handler e s1 = (Ret a, s').
Proof.
  unfold try_except. destruct (body s) as [[x|e] s1]; [auto|].
  destruct (handles e) eqn:E; [|discriminate]. right. eauto.
Qed.

Lemma try_finally_ret_inv (body : M A) (final : M unit) (s s' : state) (a : A) :
  try_finally body final s = (Ret a, s') ->
  exists s1, body s = (Ret a, s1) /\ s' = snd (final s1).
Proof.
  unfold try_finally. destruct (body s) as [r s1].
  destruct (final s1) as [[u|e] s2] eqn:Ef; [|discriminate].
  intros H. inversion H; subst. exists s1. now rewrite Ef.
Qed.

Lemma ret_inv (a b : A) (s s' : state) : ret a s = (Ret b, s') -> a = b /\ s = s'.
Proof. unfold ret. intros H. now inversion H. Qed.

End Inversion.

Ltac inv_bind H :=
  let a := fresh "a" in
  let s := fresh "s" in
  let E := fresh "E" in
  apply bind_ret_inv in H; destruct H as (a & s & E & H).

Section Installer.

Variable env : Env.

Lemma succeeded_grows (t new : list event) :
  pip_install_succeeded env t -> pip_install_succeeded env (new ++ t).
Proof.
  intros (cmd & h & after & Hin & -> & Hrun).
  exists cmd, h, (new ++ after). now rewrite <- app_assoc.
Qed.

Lemma pip_loop_true (cmds : list (list string)) :
  forall s s',
    pip_loop env cmds s = (Ret true, s') ->
    exists cmd h,
      In cmd cmds /\ subprocess_run env h cmd = Ret tt /\
      trace s' = Print "[INFO] py7zr installed successfully." :: Run cmd :: h.
Proof.
  induction cmds as [|cmd cmds IH]; intros s s' H; simpl in H.
  - apply ret_inv in H as [H _]. discriminate.
  - inv_bind H. apply try_except_ret_inv in E as [E|(e & s1 & E & He & Hh)].
    + unfold bind, run, call, print, ret in E.
      destruct (subprocess_run env (trace s) cmd) as [[]|e] eqn:Er; [|discriminate].
      simpl in E. inversion E; subst. apply ret_inv in H as [_ <-].
      exists cmd, (trace s). simpl. auto.
    + inv_bind Hh. apply ret_inv in Hh as [<- ->].
      destruct (IH _ _ H) as (c & h & Hin & Hr & Ht).
      exists c, h. simpl. auto.
Qed.

Lemma tryPipInstall_true (s s' : state) :
  tryPipInstall env s = (Ret true, s') -> pip_install_succeeded env (trace s').
Proof.
  intros H. apply pip_loop_true in H as (cmd & h & Hin & Hr & Ht).
  exists cmd, h, [Print "[INFO] py7zr installed successfully."]. auto.
Qed.

Lemma ensure_pip_true (s s' : state) :
  ensure_pip env s = (Ret (Some true), s') -> pip_install_succeeded env (trace s').
Proof.
  unfold ensure_pip. intros H.
  apply try_except_ret_inv in H as [H|(e & s1 & _ & _ & H)].
  - do 4 inv_bind H. apply ret_inv in H as [H <-]. inversion H; subst.
    eapply tryPipInstall_true; eassumption.
  - inv_bind H. apply ret_inv in H as [H _]. discriminate.
Qed.

Lemma get_pip_true (s s' : state) :
  get_pip env s = (Ret (Some true), s') -> pip_install_succeeded env (trace s').
Proof.
  unfold get_pip. intros H.
  apply try_finally_ret_inv in H as (s1 & H & ->).
  destruct (remove_tmpFile_quiet (fun _ => false)) with (s := s1)
    as (new & -> & _); try reflexivity.
  apply succeeded_grows.
  apply try_except_ret_inv in H as [H|(e & s2 & _ & _ & H)].
  - do 9 inv_bind H. apply ret_inv in H as [H <-]. inversion H; subst.
    eapply tryPipInstall_true; eassumption.
  - inv_bind H. apply ret_inv in H as [H _]. discriminate.
Qed.

Lemma installPy7zr_true (s s' : state) :
  installPy7zr env s = (Ret true, s') -> pip_install_succeeded env (trace s').
Proof.
  unfold installPy7zr. intros H. do 3 inv_bind H.
  assert (a1 = Some true) as ->.
  { destruct a1 as [b|]; apply ret_inv in H as [H _]; congruence. }
  apply ret_inv in H as [_ <-]. clear E E0.
  apply try_except_ret_inv in E1 as [H|(e & s3 & _ & _ & H)].
  - do 2 inv_bind H. apply ret_inv in H as [H <-]. inversion H; subst.
    eapply tryPipInstall_true; eassumption.
  - do 2 inv_bind H. destruct a2 as [b|].
    + apply ret_inv in H as [H <-]. inversion H; subst.
      eapply ensure_pip_true; eassumption.
    + eapply get_pip_true; eassumption.
Qed.

(** C3, amended.  [installPy7zr] returns [True] only after one of
    its pip install commands has exited with status 0; it never
    imports py7zr itself; when it has returned [True], the next call
    of [py7zrMethod] is the import of py7zr. *)
Theorem install_reports_pip_status :
  (forall s s',
     installPy7zr env s = (Ret true, s') ->
     pip_install_succeeded env (trace s')) /\
  adds is_py7zr_import 0 (installPy7zr env) /\
  (forall s m s',
     import_module env (trace s) "py7zr" = Raise (ImportError m) ->
     installPy7zr env (log (Import "py7zr") s) = (Ret true, s') ->
     trace (snd (load_py7zr env s)) = Import "py7zr" :: trace s').
Proof.
  repeat split.
  - apply installPy7zr_true.
  - now apply installPy7zr_quiet.
  - intros s m s' Hi Hinst.
    unfold load_py7zr, try_except, bind, import_, call, ret.
    rewrite Hi. cbn [is_ImportError]. rewrite Hinst. cbn [negb].
    destruct (import_module env (trace s') "py7zr") as [[]|e]; reflexivity.
Qed.

End Installer.

(** C3, as stated, fails: the pip on the path exits with status 0, the
    installer returns [True], and py7zr still cannot be imported. *)
Lemma install_without_import :
  ~ install_implies_importable example_foreign_pip.
Proof.
  intros H.
  pose proof (H initial (snd (installPy7zr example_foreign_pip initial)) eq_refl) as Hi.
  vm_compute in Hi. discriminate Hi.
Qed.

Lemma install_reports_pip_status_witness :
  pip_install_succeeded example_foreign_pip
    (trace (snd (installPy7zr example_foreign_pip initial))).
Proof.
  apply (proj1 (install_reports_pip_status example_foreign_pip) initial).
  reflexivity.
Defined.

(** C7 on [example_foreign_pip]: the second import of [py7zrMethod] is
    outside every [try], and its [ImportError] leaves the tier. *)
Theorem reimport_fault_escapes :
  fst (py7zrMethod example_foreign_pip "/home/u" "/media/u/stick" "u" initial)
  = Raise (ImportError "No module named 'py7zr'")
  /\ fst (installPy7zr example_foreign_pip
            (log (Import "py7zr") initial)) = Ret true.
Proof. split; reflexivity. Qed.

Section TemporaryFile.

Context {A B : Type}.

Lemma keeps_ret (a : A) : keeps (ret a).
Proof. intros s. split; reflexivity. Qed.

Lemma keeps_call (e : event) (answer : list event -> result A) :
  keeps (call e answer).
Proof. intros s. split; reflexivity. Qed.

Lemma keeps_bind (c : M A) (k : A -> M B) :
  keeps c -> (forall a, keeps (k a)) -> keeps (bind c k).
Proof.
  intros Hc Hk s. unfold bind. destruct (Hc s) as [H1 H2].
  destruct (c s) as [[a|e] s1]; simpl in *.
  - destruct (Hk a s1) as [H3 H4]. split; congruence.
  - auto.
Qed.

Lemma keeps_try_except (body : M A) (handles : exn -> bool) (handler : exn -> M A) :
  keeps body -> (forall e, keeps (handler e)) ->
  keeps (try_except body handles handler).
Proof.
  intros Hb Hh s. unfold try_except. destruct (Hb s) as [H1 H2].
  destruct (body s) as [[a|e] s1]; simpl in *; [auto|].
  destruct (handles e); simpl; [|auto].
  destruct (Hh e s1) as [H3 H4]. split; congruence.
Qed.

Lemma keeps_shrinks (c : M A) : keeps c -> shrinks c.
Proof. intros H s f. destruct (H s) as [-> _]. auto. Qed.

Lemma shrinks_bind (c : M A) (k : A -> M B) :
  shrinks c -> (forall a, shrinks (k a)) -> shrinks (bind c k).
Proof.
  intros Hc Hk s f. unfold bind. specialize (Hc s f).
  destruct (c s) as [[a|e] s1]; simpl in *; [|assumption].
  intros H. apply Hc, (Hk a s1 f H).
Qed.

Lemma shrinks_try_except (body : M A) (handles : exn -> bool)
    (handler : exn -> M A) :
  shrinks body -> (forall e, shrinks (handler e)) ->
  shrinks (try_except body handles handler).
Proof.
  intros Hb Hh s f. unfold try_except. specialize (Hb s f).
  destruct (body s) as [[a|e] s1]; simpl in *; [assumption|].
  destruct (handles e); simpl; [|assumption].
  intros H. apply Hb, (Hh e s1 f H).
Qed.

Lemma bound_keeps_bind (c : M A) (k : A -> M B) :
  keeps c -> (forall a s, temp_bound s (snd (k a s))) ->
  forall s, temp_bound s (snd (bind c k s)).
Proof.
  intros Hc Hk s. unfold bind. destruct (Hc s) as [H1 H2].
  destruct (c s) as [[a|e] s1]; simpl in *.
  - destruct (Hk a s1) as [[H3 H4]|(name & H3 & H4)].
    + left. split; congruence.
    + right. exists name. split; congruence.
  - left. auto.
Qed.

Lemma bound_try_except (body : M A) (handles : exn -> bool)
    (handler : exn -> M A) :
  (forall s, temp_bound s (snd (body s))) -> (forall e, keeps (handler e)) ->
  forall s, temp_bound s (snd (try_except body handles handler s)).
Proof.
  intros Hb Hh s. unfold try_except. specialize (Hb s).
  destruct (body s) as [[a|e] s1]; simpl in *; [assumption|].
  destruct (handles e); simpl; [|assumption].
  destruct (Hh e s1) as [H3 H4].
  destruct Hb as [[H1 H2]|(name & H1 & H2)].
  - left. split; congruence.
  - right. exists name. split; congruence.
Qed.

Lemma snd_try_finally (body : M A) (final : M unit) (s : state) :
  snd (try_finally body final s) = snd (final (snd (body s))).
Proof.
  unfold try_finally. destruct (body s) as [r s1]. simpl.
  destruct (final s1) as [[u|e] s2]; reflexivity.
Qed.

End TemporaryFile.

Ltac frame_step :=
  match goal with
  | |- forall _, _ => intro
  | |- keeps (ret _) => apply keeps_ret
  | |- keeps (bind _ _) => apply keeps_bind
  | |- keeps (try_except _ _ _) => apply keeps_try_except
  | |- keeps (call _ _) => apply keeps_call
  | |- keeps (print _) => unfold print
  | |- keeps (import_ _ _) => unfold import_
  | |- keeps (run _ _) => unfold run
  | |- keeps (if ?b then _ else _) => destruct b
  | |- keeps (match ?x with _ => _ end) => destruct x
  end.

Ltac frame := repeat frame_step.

Section Cleanup.

Variable env : Env.

Lemma pip_loop_keeps (cmds : list (list string)) : keeps (pip_loop env cmds).
Proof. induction cmds as [|c cmds IH]; simpl; frame; auto. Qed.

Lemma ensure_pip_keeps : keeps (ensure_pip env).
Proof. unfold ensure_pip, tryPipInstall. frame; auto using pip_loop_keeps. Qed.

(** The body of the third [try] either fails before the temporary
    file exists, or creates it and binds [tmpFile] to it. *)
Lemma download_bound (s : state) :
  temp_bound s
    (snd ((name <- tempfile_NamedTemporaryFile env ;;
           bind_tmpFile name ;;
           call (Urlretrieve url name) (fun h => urlretrieve env h url name) ;;
           run env [sys_executable env; name] ;;
           print "[INFO] pip installed successfully." ;;
           installed <- tryPipInstall env ;;
           ret (Some installed)) s)).
Proof.
  unfold bind at 1. unfold tempfile_NamedTemporaryFile.
  destruct (mkstemp env (trace s)) as [name|e]; [|left; split; reflexivity].
  unfold bind at 1. unfold bind_tmpFile at 1.
  match goal with
  | |- temp_bound _ (snd (?c ?s1)) =>
      assert (Hk : keeps c) by (unfold tryPipInstall; frame; apply pip_loop_keeps);
      destruct (Hk s1) as [H1 H2]
  end.
  right. exists name. simpl in H1, H2. auto.
Qed.

Lemma remove_after_bound (s s1 : state) :
  temp_bound s s1 ->
  (forall f, In f (tmpfiles (snd (remove_tmpFile s1))) -> In f (tmpfiles s)) /\
  (forall name, tmpFile (snd (remove_tmpFile s1)) = Some name ->
                ~ In name (tmpfiles (snd (remove_tmpFile s1)))).
Proof.
  assert (Hmem : forall x l, Str.mem x l = false -> ~ In x l).
  { intros x l H Hin. apply mem_spec in Hin. congruence. }
  assert (Hfilter : forall x l, ~ In x (filter (fun f => negb (f =? x)%string) l)).
  { intros x l Hin. apply filter_In in Hin as [_ Hin].
    now rewrite String.eqb_refl in Hin. }
  intros [[H1 H2]|(name & H1 & H2)]; unfold remove_tmpFile, os_remove.
  - destruct (tmpFile s1) as [x|] eqn:Ex; [|simpl; rewrite H1, Ex; split; [auto | discriminate]].
    destruct (Str.mem x (tmpfiles s1)) eqn:Em; simpl; rewrite Ex.
    + split.
      * intros f Hf. apply filter_In in Hf as [Hf _]. now rewrite <- H1.
      * intros n Hn. inversion Hn; subst. apply Hfilter.
    + split.
      * intros f Hf. now rewrite <- H1.
      * intros n Hn. inversion Hn; subst. now apply Hmem.
  - rewrite H2, H1. simpl. rewrite String.eqb_refl. simpl.
    rewrite H1, H2. simpl. rewrite String.eqb_refl. simpl. split.
    + intros f Hf. now apply filter_In in Hf as [Hf _].
    + intros n Hn. inversion Hn; subst. apply Hfilter.
Qed.

Lemma get_pip_cleans (s : state) :
  (forall f, In f (tmpfiles (snd (get_pip env s))) -> In f (tmpfiles s)) /\
  (forall name, tmpFile (snd (get_pip env s)) = Some name ->
                ~ In name (tmpfiles (snd (get_pip env s)))).
Proof.
  unfold get_pip. rewrite snd_try_finally. apply remove_after_bound.
  apply bound_try_except; [|frame].
  do 3 (apply bound_keeps_bind; [frame | intros _]).
  apply download_bound.
Qed.

(** C8. Whatever happens in the get-pip step (a return, a handled
    failure or a fault that propagates), every temporary file that
    exists when the step is left existed before it, and the file
    bound to [tmpFile] does not exist any more; the same holds for
    [installPy7zr] as a whole. *)
Theorem get_pip_removes_temporary_file :
  (forall s,
     (forall f, In f (tmpfiles (snd (get_pip env s))) -> In f (tmpfiles s)) /\
     (forall name, tmpFile (snd (get_pip env s)) = Some name ->
                   ~ In name (tmpfiles (snd (get_pip env s))))) /\
  (forall s f, In f (tmpfiles (snd (installPy7zr env s))) -> In f (tmpfiles s)).
Proof.
  split; [exact get_pip_cleans|].
  change (shrinks (installPy7zr env)). unfold installPy7zr.
  apply shrinks_bind; [intros s f H; exact H | intros _].
  apply shrinks_bind; [apply keeps_shrinks; frame | intros _].
  apply shrinks_bind; [| intros [b|]; apply keeps_shrinks; frame].
  apply shrinks_try_except.
  - apply keeps_shrinks. unfold tryPipInstall. frame. apply pip_loop_keeps.
  - intros _. apply shrinks_bind; [apply keeps_shrinks; frame | intros _].
    apply shrinks_bind; [apply keeps_shrinks, ensure_pip_keeps|].
    intros [b|]; [apply keeps_shrinks; frame|].
    intros s f. apply get_pip_cleans.
Qed.

End Cleanup.

(** * What the tiers let through *)
Section RaiseFacts.

Context {A B : Type}.
Variable Q : exn -> Prop.

Lemma ro_ret (a : A) : raises_only Q (ret a).
Proof. intros s e s' H. discriminate H. Qed.

Lemma ro_call (ev : event) (answer : list event -> result A) :
  (forall h e, answer h = Raise e -> Q e) -> raises_only Q (call ev answer).
Proof.
  intros Ha s e s' H. unfold call in H. inversion H as [[Hr Hs]]. eauto.
Qed.

Lemma ro_bind (c : M A) (k : A -> M B) :
  raises_only Q c -> (forall a, raises_only Q (k a)) -> raises_only Q (bind c k).
Proof.
  intros Hc Hk s e s' H. unfold bind in H.
  destruct (c s) as [[a|e0] s1] eqn:Ec.
  - exact (Hk a s1 e s' H).
  - inversion H; subst. exact (Hc s e s' Ec).
Qed.

Lemma ro_try_except (Q' : exn -> Prop) (body : M A) (handles : exn -> bool)
    (handler : exn -> M A) :
  raises_only Q' body ->
  (forall e, Q' e -> handles e = false -> Q e) ->
  (forall e, raises_only Q (handler e)) ->
  raises_only Q (try_except body handles handler).
Proof.
  intros Hb Hu Hh s e s' H. unfold try_except in H.
  destruct (body s) as [[a|e0] s1] eqn:Eb; [discriminate|].
  destruct (handles e0) eqn:Eh.
  - exact (Hh e0 s1 e s' H).
  - inversion H; subst. exact (Hu e (Hb s e s' Eb) Eh).
Qed.



End RaiseFacts.

Lemma ro_any {A} (c : M A) : raises_only (fun _ => True) c.
Proof. intros s e s' _. exact I. Qed.

Lemma ro_print (Q : exn -> Prop) (msg : string) : raises_only Q (print msg).
Proof. apply ro_call. intros h e H. discriminate H. Qed.

Ltac ro_step :=
  match goal with
  | |- forall _, _ => intro
  | |- raises_only _ (ret _) => apply ro_ret
  | |- raises_only _ (bind _ _) => apply ro_bind
  | |- raises_only _ (print _) => apply ro_print
  | |- raises_only _ (if ?b then _ else _) => destruct b
  | |- raises_only _ (match ?x with _ => _ end) => destruct x
  end.

Ltac ro := repeat ro_step.

Section Faults.

Variable env : Env.

Let not_an_Exception (e : exn) : Prop := is_Exception e = false.

(** What is caught by [except Exception] leaves only the others. *)
Lemma ro_except_Exception {A} (Q : exn -> Prop) (body : M A)
    (handler : exn -> M A) :
  (forall e, is_Exception e = false -> Q e) ->
  (forall e, raises_only Q (handler e)) ->
  raises_only Q (try_except body is_Exception handler).
Proof.
  intros Hq Hh. apply (ro_try_except Q (fun _ => True)); [apply ro_any | | exact Hh].
  intros e _. apply Hq.
Qed.

Lemma pip_loop_faults (cmds : list (list string)) :
  raises_only not_an_Exception (pip_loop env cmds).
Proof.
  induction cmds as [|cmd cmds IH]; simpl; ro; auto.
  apply ro_except_Exception; [auto | ro].
Qed.









End Faults.

(** * The properties on the example machines *)



Lemma tier2_only_after_tier1_fails_witness :
  fst (main example_linux initial) = Ret tt /\
  exists new,
    trace (snd (main example_linux initial)) = new ++ trace initial /\
    filter is_library_event new = [].
Proof.
  destruct (tier2_only_after_tier1_fails example_linux) as (Htier1 & _).
  destruct (Htier1 initial "/media/u/stick"
              (snd (findDrive example_linux "u" initial))
              (snd (cliMethod example_linux "/home/u" "/media/u/stick" "u"
                      (snd (findDrive example_linux "u" initial)))))
    as [Hmain Hquiet].
  - reflexivity.
  - discriminate.
  - reflexivity.
  - split; [now rewrite Hmain | exact Hquiet].
Defined.

Lemma get_pip_removes_temporary_file_witness :
  tmpfiles (snd (get_pip example_foreign_pip initial)) = [].
Proof.
  pose proof (proj1 (proj1 (get_pip_removes_temporary_file example_foreign_pip) initial))
    as Hsub.
  destruct (tmpfiles (snd (get_pip example_foreign_pip initial))) as [|f l];
    [reflexivity|].
  destruct (Hsub f (or_introl eq_refl)).
Defined.


(** * More about volume discovery *)
Section DiscoveryShape.

Variable env : Env.






(** X2. On Windows [findDrive] makes no query about mount points; on
    every other system it neither loads ctypes nor asks for drives. *)
Theorem findDrive_platform_calls (username : string) :
  ((platform_system env =? "Windows")%string = true ->
   adds is_filesystem_query 0 (findDrive env username)) /\
  ((platform_system env =? "Windows")%string = false ->
   adds is_windows_call 0 (findDrive env username)).
Proof.
  split; intros Hsys; unfold findDrive; cbv zeta; rewrite Hsys.
  - quiet. now apply drive_loop_quiet.
  - quiet. now apply mount_loop_quiet.
Qed.

(** X3. When [findDrive] finds nothing, [main] prints its report and
    stops: the run consists of the volume scan and printing only, with
    no walk, no subprocess, no import of py7zr and no archive. *)
Theorem no_volume_no_archive (s s1 : state) :
  findDrive env (getuser env) s = (Ret None, s1) ->
  main env s
  = (Ret tt,
     log (Print "[ERROR] No external drive detected. Please insert a drive for extraction.")
         s1) /\
  exists new,
    trace (snd (main env s)) = new ++ trace s /\
    forallb is_discovery_event new = true.
Proof.
  intros Hf.
  assert (Hmain : main env s
                  = (Ret tt,
                     log (Print "[ERROR] No external drive detected. Please insert a drive for extraction.")
                         s1)).
  { unfold main, bind. now rewrite Hf. }
  split; [exact Hmain|].
  destruct (findDrive_quiet env (fun ev => negb (is_discovery_event ev)))
    with (username := getuser env) (s := s) as (new & E & L); try reflexivity.
  rewrite Hf in E. simpl in E.
  exists (Print "[ERROR] No external drive detected. Please insert a drive for extraction." :: new).
  rewrite Hmain. simpl. rewrite E. split; [reflexivity|].
  apply forallb_forall. intros ev Hev.
  destruct (is_discovery_event ev) eqn:Ed; [reflexivity|].
  assert (Hin : In ev (filter (fun ev => negb (is_discovery_event ev)) new)).
  { apply filter_In. split; [assumption | now rewrite Ed]. }
  destruct (filter (fun ev => negb (is_discovery_event ev)) new);
    [destruct Hin | simpl in L; lia].
Qed.

End DiscoveryShape.


Lemma findDrive_platform_calls_witness :
  adds is_filesystem_query 0 (findDrive example_windows "u") /\
  adds is_windows_call 0 (findDrive example_linux "u").
Proof.
  split.
  - apply (proj1 (findDrive_platform_calls example_windows "u")). reflexivity.
  - apply (proj2 (findDrive_platform_calls example_linux "u")). reflexivity.
Defined.

Lemma no_volume_no_archive_witness :
  fst (main example_hotplug initial) = Ret tt /\
  exists new,
    trace (snd (main example_hotplug initial)) = new ++ trace initial /\
    forallb is_discovery_event new = true.
Proof.
  destruct (no_volume_no_archive example_hotplug initial
              (snd (findDrive example_hotplug "u" initial))) as [Hmain Hnew].
  - reflexivity.
  - split; [now rewrite Hmain | exact Hnew].
Defined.

(** * More about file collection *)
Section CollectionShape.

Import FS.

(** X4. Every yielded relative path is a non-empty relative path whose
    components are names of directory entries: none is empty, ["."] or
    [".."], so an archive entry named by it stays below the directory
    it is extracted to. *)
Theorem relative_paths_stay_inside (cwd : string) (tree : option node)
    (source : string) (exts : list string) :
  wf_tree tree = true -> PosixPath.isabs cwd = true ->
  exists l,
    collectMatchingFiles cwd tree source exts = Some l /\
    forall absPath relPath,
      In (absPath, relPath) l ->
      relPath <> "" /\ PosixPath.isabs relPath = false /\
      Forall (fun c => valid_name c = true) (Str.split PosixPath.sep relPath).
Proof.
  intros Hwf Hcwd.
  destruct (collect_spec cwd tree source exts Hwf Hcwd) as (l & Hl & Hspec).
  exists l. split; [assumption|]. intros a r Hin.
  apply Hspec in Hin as (ds & name & Hf & _ & _ & ->).
  pose proof (found_valid _ _ _ Hwf Hf) as Hv.
  assert (Hc : Forall (fun d => PosixPath.component d = true) (ds ++ [name])).
  { eapply Forall_impl; [|exact Hv]. intros x. apply valid_name_component. }
  assert (Hne : ds ++ [name] <> []) by (destruct ds; discriminate).
  destruct (join_component_start _ Hne Hc) as [H1 H2].
  repeat split; try assumption.
  rewrite split_join; [assumption | assumption |].
  eapply Forall_impl; [|exact Hc]. intros x Hx. now apply component_spec in Hx.
Qed.

Lemma relative_paths_stay_inside_witness :
  exists l,
    collectMatchingFiles "/work" (Some example_home) "/home/u" extensions = Some l /\
    forall absPath relPath,
      In (absPath, relPath) l ->
      relPath <> "" /\ PosixPath.isabs relPath = false /\
      Forall (fun c => valid_name c = true) (Str.split PosixPath.sep relPath).
Proof.
  apply (relative_paths_stay_inside "/work" (Some example_home) "/home/u" extensions);
    reflexivity.
Defined.

Lemma suffix_without_dot (name : string) :
  Str.contains name "." = false -> PurePath.suffix name = "".
Proof.
  intros Hn. unfold PurePath.suffix.
  assert (Hr : Str.rfind "." (PurePath.name name) = (-1)%Z).
  { apply rfind_absent. unfold PurePath.name, PurePath.parts.
    assert (Hall : Forall (fun c => Str.contains c "." = false)
                          (Str.split PosixPath.sep name)).
    { clear -Hn. induction name as [|a name IH]; simpl.
      - constructor; [reflexivity | constructor].
      - simpl in Hn. apply orb_false_iff in Hn as [Ha Hn]. specialize (IH Hn).
        destruct (Ascii.eqb a PosixPath.sep).
        + constructor; [reflexivity | exact IH].
        + destruct (Str.split PosixPath.sep name) as [|h t].
          * constructor; [simpl; now rewrite Ha | constructor].
          * inversion IH; subst. constructor; [simpl; now rewrite Ha | assumption]. }
    induction Hall as [|c cs Hc _ IH]; [reflexivity|].
    simpl. destruct (negb _); [|exact IH].
    destruct (filter _ cs) eqn:Ef; [exact Hc | exact IH]. }
  now rewrite Hr.
Qed.

Lemma suffix_trailing (stem : string) :
  Str.contains stem PosixPath.sep = false ->
  PurePath.suffix (stem +++ ".") = "".
Proof.
  intros Hs. unfold PurePath.suffix.
  destruct (string_dec stem "") as [->|Hne]; [reflexivity|].
  rewrite name_component.
  - rewrite (rfind_last "." stem "" eq_refl), length_append. simpl.
    replace (Z.of_nat (String.length stem) <?
             Z.of_nat (String.length stem + 1) - 1)%Z with false
      by (symmetry; apply Z.ltb_ge; lia).
    now rewrite andb_false_r.
  - apply component_spec. split.
    + intros E. apply append_eq_nil in E as [_ E]. discriminate.
    + rewrite contains_append, Hs. reflexivity.
  - destruct stem as [|a [|b stem]]; [congruence | discriminate | discriminate].
Qed.

(** X5. The selection looks at the part after the last dot only: a
    name [stem.body] is selected exactly when [.body], lower-cased, is
    listed, whatever dots the stem contains; and with the allowlist of
    the script a name without a dot or ending in a dot is never
    selected. *)
Theorem selection_by_last_extension :
  (forall exts stem body,
     stem <> "" -> Str.contains stem PosixPath.sep = false ->
     body <> "" -> Str.contains body "." = false ->
     Str.contains body PosixPath.sep = false ->
     matches exts (stem +++ String "." body)
     = Str.mem (Str.lower (String "." body)) exts) /\
  (forall name, Str.contains name "." = false -> matches extensions name = false) /\
  (forall stem, Str.contains stem PosixPath.sep = false ->
                matches extensions (stem +++ ".") = false).
Proof.
  repeat split.
  - intros exts stem body H1 H2 H3 H4 H5. unfold matches.
    now rewrite suffix_extension.
  - intros name Hn. unfold matches. now rewrite suffix_without_dot.
  - intros stem Hs. unfold matches. now rewrite suffix_trailing.
Qed.

Lemma selection_by_last_extension_witness :
  matches extensions "report.pdf.bak" = Str.mem ".bak" extensions /\
  matches extensions "Makefile" = false /\
  matches extensions "notes." = false.
Proof.
  destruct selection_by_last_extension as (Hlast & Hnone & Htrail).
  split; [|split].
  - apply (Hlast extensions "report.pdf" "bak"); (discriminate || reflexivity).
  - apply (Hnone "Makefile"). reflexivity.
  - apply (Htrail "notes"). reflexivity.
Defined.

End CollectionShape.

(** * More about the tiers *)
Section TierOutcomes.

Variable env : Env.

Lemma call_ret_inv {A} (ev : event) (answer : list event -> result A)
    (s s' : state) (a : A) :
  call ev answer s = (Ret a, s') -> answer (trace s) = Ret a /\ s' = log ev s.
Proof. unfold call. intros H. inversion H. auto. Qed.

Lemma collect_ret_inv (source : string) (exts : list string) (s s' : state)
    (l : list (string * string)) :
  collect env source exts s = (Ret l, s') ->
  collectMatchingFiles (getcwd env) (scandir_tree env (trace s) source) source exts
  = Some l /\ s' = log (Walk source) s.
Proof.
  unfold collect. intros H. apply call_ret_inv in H as [H ->].
  destruct (collectMatchingFiles _ _ _ _); inversion H. auto.
Qed.

(** X6. [cliMethod] returns [True] only after 7z, run once on exactly
    the selected absolute paths with the archive path and [-mx=5], has
    exited with status 0; it returns [False] only when nothing was
    selected or when that run raised [FileNotFoundError] or
    [CalledProcessError]. *)
Theorem cliMethod_outcome (source destination username : string)
    (s s' : state) (b : bool) :
  cliMethod env source destination username s = (Ret b, s') ->
  let archiveName := PosixPath.join destination (username +++ "Backup.7z") in
  let info := Print ("[INFO] Attempting to compress with 7z CLI to "
                       +++ archiveName +++ " ...") in
  exists l,
    collectMatchingFiles (getcwd env)
      (scandir_tree env (info :: trace s) source) source extensions = Some l /\
    let cmd := ["7z"; "a"; archiveName] ++ map fst l ++ ["-mx=5"] in
    let h := Walk source :: info :: trace s in
    if b then
      l <> [] /\ subprocess_run env h cmd = Ret tt /\
      trace s' = Print "[INFO] 7z CLI compression succeeded." :: Run cmd :: h
    else
      l = [] \/
      exists e, subprocess_run env h cmd = Raise e /\
                is_FileNotFoundError e || is_CalledProcessError e = true.
Proof.
  intros H. cbv zeta. unfold cliMethod in H. cbv zeta in H.
  do 2 inv_bind H.
  unfold print in E. apply call_ret_inv in E as [_ ->].
  apply collect_ret_inv in E0 as [Hl ->]. cbn [trace log] in Hl.
  exists a0. split; [exact Hl|].
  destruct a0 as [|f fs].
  - inv_bind H. apply ret_inv in H as [<- _]. now left.
  - apply try_except_ret_inv in H as [H|(e & s1 & H & He & Hh)].
    + do 2 inv_bind H. apply ret_inv in H as [<- <-].
      unfold run in E. apply call_ret_inv in E as [Hrun ->].
      unfold print in E0. apply call_ret_inv in E0 as [_ ->].
      cbn [trace log] in Hrun. destruct a0. split; [discriminate|]. split; [exact Hrun | reflexivity].
    + assert (Hb : b = false).
      { destruct (is_FileNotFoundError e); inv_bind Hh;
          now apply ret_inv in Hh as [<- _]. }
      subst b. right. exists e. split; [|exact He].
      unfold bind, run, call in H. cbn [trace log] in H.
      destruct (subprocess_run env _ _) as [[]|e0]; [discriminate|].
      inversion H; subst. reflexivity.
Qed.

Lemma write_loop_ret (files : list (string * string)) :
  forall s s',
    write_loop env files s = (Ret tt, s') ->
    trace s' = rev (map write_event files) ++ trace s.
Proof.
  induction files as [|[f a] files IH]; intros s s' H.
  - apply ret_inv in H as [_ <-]. reflexivity.
  - cbn [write_loop] in H. inv_bind H. apply call_ret_inv in E as [_ ->].
    rewrite (IH _ _ H). simpl. now rewrite <- app_assoc.
Qed.

Lemma write_archive_true (archivePath : string) (files : list (string * string))
    (s s' : state) :
  write_archive env archivePath files s = (Ret true, s') ->
  trace s'
  = Print "[INFO] py7zr compression of filtered files succeeded."
    :: SevenZipClose
    :: rev (map write_event files) ++ SevenZipOpen archivePath :: trace s.
Proof.
  unfold write_archive. intros H.
  apply try_except_ret_inv in H as [H|(e & s1 & _ & _ & H)].
  - do 2 inv_bind H. apply ret_inv in H as [_ <-].
    unfold print in E0. apply call_ret_inv in E0 as [_ ->].
    unfold with_SevenZipFile in E. inv_bind E.
    apply call_ret_inv in E0 as [_ ->].
    apply try_finally_ret_inv in E as (s2 & Hw & ->). destruct a.
    apply write_loop_ret in Hw. unfold call. cbn [snd trace log].
    now rewrite Hw.
  - inv_bind H. apply ret_inv in H as [H _]. discriminate H.
Qed.

(** X7. [py7zrMethod] returns [True] only after it has loaded py7zr,
    opened the archive [<destination>/<username>Backup.7z], written
    every selected file under its relative path, in the order of the
    walk, and closed the archive. *)
Theorem py7zrMethod_writes_every_file (source destination username : string)
    (s s' : state) :
  py7zrMethod env source destination username s = (Ret true, s') ->
  let archivePath := PosixPath.join destination (username +++ "Backup.7z") in
  let info := Print ("[INFO] Attempting to compress files with selected extensions to "
                       +++ archivePath +++ " ...") in
  exists s0 l,
    load_py7zr env s = (Ret None, s0) /\
    collectMatchingFiles (getcwd env)
      (scandir_tree env (info :: trace s0) source) source extensions = Some l /\
    l <> [] /\
    trace s'
    = Print "[INFO] py7zr compression of filtered files succeeded."
      :: SevenZipClose
      :: rev (map write_event l)
      ++ SevenZipOpen archivePath :: Walk source :: info :: trace s0.
Proof.
  intros H. cbv zeta. unfold py7zrMethod in H. inv_bind H.
  destruct a as [b|].
  - apply ret_inv in H as [-> _].
    pose proof (load_py7zr_returns_false _ _ _ _ E) as Hb. discriminate Hb.
  - cbv zeta in H. do 2 inv_bind H.
    unfold print in E0. apply call_ret_inv in E0 as [_ ->].
    apply collect_ret_inv in E1 as [Hl ->]. cbn [trace log] in Hl.
    exists s0, a0. split; [exact E|]. split; [exact Hl|].
    destruct a0 as [|f fs].
    + inv_bind H. apply ret_inv in H as [H _]. discriminate H.
    + split; [discriminate|]. now apply write_archive_true in H.
Qed.

End TierOutcomes.

Lemma cliMethod_outcome_witness :
  exists l,
    collectMatchingFiles "/work" (Some example_home) "/home/u" extensions = Some l /\
    l <> [] /\
    trace (snd (cliMethod example_linux "/home/u" "/media/u/stick" "u" initial))
    = [Print "[INFO] 7z CLI compression succeeded.";
       Run (["7z"; "a"; "/media/u/stick/uBackup.7z"] ++ map fst l ++ ["-mx=5"]);
       Walk "/home/u";
       Print "[INFO] Attempting to compress with 7z CLI to /media/u/stick/uBackup.7z ..."].
Proof.
  destruct (cliMethod_outcome example_linux "/home/u" "/media/u/stick" "u" initial
              (snd (cliMethod example_linux "/home/u" "/media/u/stick" "u" initial))
              true eq_refl) as (l & Hl & Hne & _ & Ht).
  exists l. split; [exact Hl|]. split; [exact Hne | exact Ht].
Defined.

Lemma py7zrMethod_writes_every_file_witness :
  exists l,
    collectMatchingFiles "/work" (Some example_home) "/home/u" extensions = Some l /\
    trace (snd (py7zrMethod example_linux "/home/u" "/media/u/stick" "u" initial))
    = Print "[INFO] py7zr compression of filtered files succeeded."
      :: SevenZipClose
      :: rev (map write_event l)
      ++ [SevenZipOpen "/media/u/stick/uBackup.7z"; Walk "/home/u";
          Print "[INFO] Attempting to compress files with selected extensions to /media/u/stick/uBackup.7z ...";
          Import "py7zr"].
Proof.
  destruct (py7zrMethod_writes_every_file example_linux "/home/u" "/media/u/stick" "u"
              initial
              (snd (py7zrMethod example_linux "/home/u" "/media/u/stick" "u" initial))
              eq_refl) as (s0 & l & Hload & Hl & _ & Ht).
  exists l. inversion Hload; subst s0. split; [exact Hl | exact Ht].
Defined.

(** * More about the installer *)
Section InstallerOutcomes.

Variable env : Env.

Lemma adds_try_except_unhandled {A} (p : event -> bool) (n : nat) (Q : exn -> Prop)
    (body : M A) (handles : exn -> bool) (handler : exn -> M A) :
  raises_only Q body -> (forall e, Q e -> handles e = false) ->
  adds p n body -> adds p n (try_except body handles handler).
Proof.
  intros Hq Hu Hb s. unfold try_except. destruct (Hb s) as (new & E & L).
  destruct (body s) as [[a|e] s1] eqn:Eb; simpl in E.
  - exists new. auto.
  - rewrite (Hu e (Hq s e s1 Eb)). exists new. auto.
Qed.

Lemma pip_loop_grows (cmds : list (list string)) (s : state) :
  exists new, trace (snd (pip_loop env cmds s)) = new ++ trace s.
Proof.
  destruct (pip_loop_quiet env (fun _ => false)) with (cmds := cmds) (s := s)
    as (new & E & _); try reflexivity.
  now exists new.
Qed.

Lemma pip_loop_false (cmds : list (list string)) :
  forall s s',
    pip_loop env cmds s = (Ret false, s') ->
    forall cmd, In cmd cmds -> pip_install_failed env (trace s') cmd.
Proof.
  induction cmds as [|c cmds IH]; intros s s' H cmd Hin; [destruct Hin|].
  cbn [pip_loop] in H. inv_bind H.
  destruct a; [apply ret_inv in H as [H _]; discriminate H|].
  apply try_except_ret_inv in E as [E|(e & s1 & E & He & Hh)].
  - do 2 inv_bind E. apply ret_inv in E as [E _]. discriminate E.
  - inv_bind Hh. apply ret_inv in Hh as [_ ->].
    unfold print in E0. apply call_ret_inv in E0 as [_ ->].
    unfold bind, run, call in E.
    destruct (subprocess_run env (trace s) c) as [[]|e0] eqn:Er; [discriminate|].
    inversion E; subst e0 s1. clear E.
    destruct Hin as [<-|Hin]; [|exact (IH _ _ H cmd Hin)].
    destruct (pip_loop_grows cmds
                (log (Print ("[ERROR] Failed to install py7zr using "
                               +++ Str.join " " c +++ ": " +++ str e))
                     (log (Run c) s))) as [new En].
    rewrite H in En. cbn [snd trace log] in En.
    exists (trace s),
           (new ++ [Print ("[ERROR] Failed to install py7zr using "
                             +++ Str.join " " c +++ ": " +++ str e)]), e.
    split; [|split; assumption].
    rewrite En, <- app_assoc. reflexivity.
Qed.

(** X8. [tryPipInstall] returns [False] only after both install
    commands have been run and have raised; and [pip install py7zr] is
    run only after [python -m pip install py7zr] has raised. *)
Theorem tryPipInstall_tries_in_order :
  (forall s s',
     tryPipInstall env s = (Ret false, s') ->
     forall cmd, In cmd (commands env) -> pip_install_failed env (trace s') cmd) /\
  (forall s new,
     trace (snd (tryPipInstall env s)) = new ++ trace s ->
     In (Run ["pip"; "install"; "py7zr"]) new ->
     exists e,
       subprocess_run env (trace s) [sys_executable env; "-m"; "pip"; "install"; "py7zr"]
       = Raise e /\ is_Exception e = true).
Proof.
  split; [intros s s'; apply pip_loop_false|].
  intros s new Hnew Hin.
  destruct (subprocess_run env (trace s)
              [sys_executable env; "-m"; "pip"; "install"; "py7zr"])
    as [[]|e] eqn:Er.
  - exfalso. revert Hnew.
    unfold tryPipInstall, commands. cbn [pip_loop].
    unfold bind at 1. unfold try_except at 1. unfold bind at 1.
    unfold run at 1. unfold call at 1. rewrite Er.
    unfold bind, print, call, ret. cbn [snd trace log]. intros Hnew.
    change (Print "[INFO] py7zr installed successfully."
              :: Run [sys_executable env; "-m"; "pip"; "install"; "py7zr"] :: trace s)
      with ([Print "[INFO] py7zr installed successfully.";
             Run [sys_executable env; "-m"; "pip"; "install"; "py7zr"]] ++ trace s)
      in Hnew.
    apply app_inv_tail in Hnew. subst new.
    destruct Hin as [Hin|[Hin|[]]]; discriminate Hin.
  - destruct (is_Exception e) eqn:Ee; [eauto|].
    exfalso. revert Hnew.
    unfold tryPipInstall, commands. cbn [pip_loop].
    unfold bind at 1. unfold try_except at 1. unfold bind at 1.
    unfold run at 1. unfold call at 1. rewrite Er, Ee.
    cbn [snd trace log]. intros Hnew.
    change (Run [sys_executable env; "-m"; "pip"; "install"; "py7zr"] :: trace s)
      with ([Run [sys_executable env; "-m"; "pip"; "install"; "py7zr"]] ++ trace s)
      in Hnew.
    apply app_inv_tail in Hnew. subst new.
    destruct Hin as [Hin|[]]. discriminate Hin.
Qed.

Lemma non_exception_unhandled (e : exn) :
  is_Exception e = false ->
  is_CalledProcessError e || is_FileNotFoundError e = false.
Proof. destruct e; simpl; congruence. Qed.

Lemma ensure_pip_returns (s : state) :
  (forall h, import_module env h "ensurepip" = Ret tt) ->
  (forall h, ensurepip_bootstrap env h = Ret tt) ->
  fst (ensure_pip env s) <> Ret None.
Proof.
  intros Hi Hb. unfold ensure_pip, try_except.
  unfold bind at 1. unfold import_ at 1. unfold call at 1. rewrite Hi.
  unfold bind at 1. unfold print at 1. unfold call at 1.
  unfold bind at 1. unfold call at 1. rewrite Hb.
  unfold bind at 1.
  match goal with
  | |- context [tryPipInstall env ?s1] =>
      pose proof (pip_loop_faults env (commands env) s1) as Hf;
      fold (tryPipInstall env) in Hf;
      destruct (tryPipInstall env s1) as [[b|e] s2]
  end.
  - simpl. discriminate.
  - rewrite (Hf e s2 eq_refl). simpl. discriminate.
Qed.

(** X9. When the pip version probe succeeds, [installPy7zr] makes no
    call of the pip bootstrap (no ensurepip, no temporary file, no
    download); when ensurepip is importable and succeeds, it makes no
    call of the get-pip step: nothing is downloaded. *)
Theorem bootstrap_only_when_needed :
  ((forall h, subprocess_run env h [sys_executable env; "-m"; "pip"; "--version"]
              = Ret tt) ->
   adds is_bootstrap_event 0 (installPy7zr env)) /\
  ((forall h, import_module env h "ensurepip" = Ret tt) ->
   (forall h, ensurepip_bootstrap env h = Ret tt) ->
   adds is_download_event 0 (installPy7zr env)).
Proof.
  split.
  - intros Hprobe. unfold installPy7zr.
    apply (adds_bind _ 0 0); [now apply enter_frame_quiet | intros _].
    apply (adds_bind _ 0 0); [quiet | intros _].
    apply (adds_bind _ 0 0); [|quiet].
    apply (adds_try_except_unhandled _ _ (fun e => is_Exception e = false)).
    + apply ro_bind.
      * apply ro_call. intros h e H. rewrite Hprobe in H. discriminate H.
      * intros _. apply ro_bind; [apply pip_loop_faults | ro].
    + apply non_exception_unhandled.
    + unfold tryPipInstall. quiet. now apply pip_loop_quiet.
  - intros Hi Hb. unfold installPy7zr.
    apply (adds_bind _ 0 0); [now apply enter_frame_quiet | intros _].
    apply (adds_bind _ 0 0); [quiet | intros _].
    apply (adds_bind _ 0 0); [|quiet].
    apply (adds_try_except _ 0 0).
    + unfold tryPipInstall. quiet. now apply pip_loop_quiet.
    + intros _. apply (adds_bind _ 0 0); [quiet | intros _].
      apply (adds_bind_ret _ 0 0); [now apply ensure_pip_quiet|].
      intros [b|] [s Hs]; [quiet|].
      exfalso. exact (ensure_pip_returns s Hi Hb Hs).
Qed.

End InstallerOutcomes.

Lemma tryPipInstall_tries_in_order_witness :
  pip_install_failed example_offline
    (trace (snd (tryPipInstall example_offline initial)))
    ["pip"; "install"; "py7zr"].
Proof.
  apply (proj1 (tryPipInstall_tries_in_order example_offline) initial
           (snd (tryPipInstall example_offline initial)) eq_refl).
  simpl. now right; left.
Defined.

Lemma bootstrap_only_when_needed_witness :
  adds is_bootstrap_event 0 (installPy7zr example_linux) /\
  adds is_download_event 0 (installPy7zr example_linux).
Proof.
  destruct (bootstrap_only_when_needed example_linux) as [H1 H2].
  split; [apply H1 | apply H2]; intros h; reflexivity.
Defined.


(** * What leaves the installer and the tiers *)
Section LetThrough.

Variable env : Env.




End LetThrough.

(** * Order and multiplicity of the collected files *)
Section Once.

Import FS.

Lemma distinct_spec (l : list string) : distinct l = true -> NoDup l.
Proof.
  induction l as [|x l IH]; simpl; intros H; constructor.
  - apply andb_true_iff in H as [H _]. apply negb_true_iff in H.
    intros Hin. apply mem_spec in Hin. congruence.
  - apply IH. now apply andb_true_iff in H as [_ H].
Qed.

Lemma nodup_map_filter {X Y} (f : X -> Y) (p : X -> bool) (l : list X) :
  NoDup (map f l) -> NoDup (map f (filter p l)).
Proof.
  induction l as [|x l IH]; simpl; intros H; [constructor|].
  inversion H as [|? ? Hx Hl]; subst.
  destruct (p x); [|auto]. simpl. constructor; [|auto].
  intros Hin. apply Hx. apply in_map_iff in Hin as (y & Ey & Hy).
  apply filter_In in Hy as [Hy _]. apply in_map_iff. eauto.
Qed.

(** The pairs of a directory and one of its files that [os.walk]
    reports are the files of the tree, in the same order. *)
Lemma walk_files_of (n : node) :
  forall top,
    flat_map (fun t => map (pair (fst (fst t))) (snd t)) (walk false top n)
    = map (fun a => (descend top (fst a), snd a)) (files_of n).
Proof.
  induction n as [| |dev es IH|t IH] using node_induction; intros top;
    try reflexivity.
  - cbn [walk files_of flat_map fst snd]. rewrite map_app, map_map.
    f_equal. induction IH as [|e es He _ IHes]; [reflexivity|].
    cbn [flat_map]. rewrite flat_map_app, map_app. f_equal; [|exact IHes].
    change (is_dir (snd e) && (false || negb (islink (snd e))))
      with (is_dir (snd e) && negb (islink (snd e))).
    destruct (is_dir (snd e) && negb (islink (snd e))); [|reflexivity].
    rewrite He, map_map. reflexivity.
  - simpl. apply IH.
Qed.

Lemma items_of_pairs (cwd source : string) (exts : list string)
    (walked : list (string * list string * list string)) :
  flat_map
    (fun '(root, _, files) =>
       map (candidate cwd source root) (filter (matches exts) files))
    walked
  = map (fun rf => candidate cwd source (fst rf) (snd rf))
        (filter (fun rf => matches exts (snd rf))
                (flat_map (fun t => map (pair (fst (fst t))) (snd t)) walked)).
Proof.
  induction walked as [|[[root subdirs] files] walked IH]; [reflexivity|].
  cbn [flat_map fst snd]. rewrite filter_app, map_app, IH. f_equal.
  rewrite filter_map_swap, map_map. reflexivity.
Qed.

Lemma files_of_valid (n : node) :
  wf n = true ->
  forall a, In a (files_of n) ->
            Forall (fun d => valid_name d = true) (fst a ++ [snd a]).
Proof.
  induction n as [| |dev es IH|t IH] using node_induction; intros Hwf a Hin;
    try (destruct Hin; fail).
  - simpl in Hwf. rewrite forallb_forall in Hwf.
    cbn [files_of] in Hin. apply in_app_or in Hin as [Hin|Hin].
    + apply in_map_iff in Hin as (name & <- & Hn).
      apply in_nondirs in Hn as (child & Hc & _). specialize (Hwf _ Hc).
      apply andb_true_iff in Hwf as [Hv _]. simpl. constructor; [exact Hv | constructor].
    + apply in_flat_map in Hin as (e & He & Hin).
      destruct (is_dir (snd e) && negb (islink (snd e))); [|destruct Hin].
      apply in_map_iff in Hin as (b & <- & Hb).
      rewrite Forall_forall in IH. specialize (Hwf _ He).
      apply andb_true_iff in Hwf as [Hv Hw]. simpl.
      constructor; [exact Hv | exact (IH _ He Hw _ Hb)].
  - simpl in *. auto.
Qed.

Lemma files_of_nodup (n : node) : unique_names n = true -> NoDup (files_of n).
Proof.
  induction n as [| |dev es IH|t IH] using node_induction; intros Hu;
    try constructor.
  - simpl in Hu. apply andb_true_iff in Hu as [Hd Hc].
    apply distinct_spec in Hd. rewrite forallb_forall in Hc.
    cbn [files_of]. apply NoDup_app.
    + apply NoDup_map_NoDup_ForallPairs.
      * intros x y _ _ E. now inversion E.
      * unfold nondirs. now apply nodup_map_filter.
    + clear -IH Hd Hc. induction es as [|e es IHes]; [constructor|].
      inversion IH as [|? ? He IHt]; subst.
      inversion Hd as [|? ? Hx Hd']; subst.
      cbn [flat_map]. apply NoDup_app.
      * destruct (is_dir (snd e) && negb (islink (snd e))); [|constructor].
        apply NoDup_map_NoDup_ForallPairs.
        -- intros [d1 n1] [d2 n2] _ _ E. now inversion E.
        -- apply He, Hc. now left.
      * apply IHes; [assumption | assumption |].
        intros x Hx'. apply Hc. now right.
      * intros a Ha Ha'.
        destruct (is_dir (snd e) && negb (islink (snd e))); [|destruct Ha].
        apply in_map_iff in Ha as (b & <- & _).
        apply in_flat_map in Ha' as (e' & He' & Ha').
        destruct (is_dir (snd e') && negb (islink (snd e'))); [|destruct Ha'].
        apply in_map_iff in Ha' as (b' & E & _). inversion E as [[E1 E2 E3]].
        apply Hx. rewrite <- E1. now apply in_map.
    + intros a Ha Ha'. apply in_map_iff in Ha as (name & <- & _).
      apply in_flat_map in Ha' as (e' & _ & Ha').
      destruct (is_dir (snd e') && negb (islink (snd e'))); [|destruct Ha'].
      apply in_map_iff in Ha' as (b' & E & _). inversion E.
  - simpl in *. auto.
Qed.

Lemma sequence_map_some {X Y} (c : X -> option Y) (g : X -> Y) (l : list X) :
  (forall x, In x l -> c x = Some (g x)) ->
  sequence (map c l) = Some (map g l).
Proof.
  induction l as [|x l IH]; intros H; [reflexivity|].
  simpl. rewrite (H x (or_introl eq_refl)), IH; [reflexivity|].
  intros y Hy. apply H. now right.
Qed.

Lemma candidate_valid (cwd source : string) (ds : list string) (name : string) :
  PosixPath.isabs cwd = true ->
  Forall (fun d => valid_name d = true) (ds ++ [name]) ->
  candidate cwd source (descend source ds) name
  = Some (PosixPath.join (descend source ds) name, Str.join "/" (ds ++ [name])).
Proof.
  intros Hcwd Hv.
  assert (Hc : Forall (fun d => PosixPath.component d = true) (ds ++ [name])).
  { eapply Forall_impl; [|exact Hv]. intros a. apply valid_name_component. }
  apply Forall_app in Hc as [Hds Hn]. inversion Hn; subst.
  unfold candidate. rewrite descend_join by assumption.
  rewrite relpath_inside; [reflexivity | assumption | | assumption].
  destruct ds; discriminate.
Qed.

(** The pair yielded for a file of the tree. *)
Let yielded (source : string) (a : list string * string) : string * string :=
  (PosixPath.join (descend source (fst a)) (snd a),
   Str.join "/" (fst a ++ [snd a])).

Lemma collect_files_of (cwd : string) (n : node) (source : string)
    (exts : list string) :
  wf n = true -> PosixPath.isabs cwd = true ->
  collectMatchingFiles cwd (Some n) source exts
  = Some (map (yielded source)
              (filter (fun a => matches exts (snd a)) (files_of n))).
Proof.
  intros Hwf Hcwd. unfold collectMatchingFiles.
  rewrite items_of_pairs, walk_files_of, filter_map_swap, map_map.
  cbn [fst snd]. apply sequence_map_some. intros a Ha.
  apply filter_In in Ha as [Ha _]. apply candidate_valid; [assumption|].
  exact (files_of_valid n Hwf a Ha).
Qed.

(** X12. The files are yielded in the order of a top-down walk: the
    matching files of a directory in scan order, then, directory by
    directory in scan order, those of its subdirectories that are not
    symbolic links. *)
Theorem collect_in_walk_order (cwd : string) (n : node) (source : string)
    (exts : list string) :
  wf n = true -> PosixPath.isabs cwd = true ->
  collectMatchingFiles cwd (Some n) source exts
  = Some (map (fun a => (PosixPath.join (descend source (fst a)) (snd a),
                         Str.join "/" (fst a ++ [snd a])))
              (filter (fun a => matches exts (snd a)) (files_of n))).
Proof. apply collect_files_of. Qed.

(** X13. When no directory lists a name twice, no absolute path and no
    relative path is yielded twice: every selected file appears once in
    the 7z command and under a name of its own in the archive. *)
Theorem each_file_yielded_once (cwd : string) (n : node) (source : string)
    (exts : list string) :
  wf n = true -> unique_names n = true -> PosixPath.isabs cwd = true ->
  exists l,
    collectMatchingFiles cwd (Some n) source exts = Some l /\
    NoDup (map fst l) /\ NoDup (map snd l).
Proof.
  intros Hwf Hu Hcwd. eexists. split; [now apply collect_files_of|].
  set (L := filter (fun a => matches exts (snd a)) (files_of n)).
  assert (HL : NoDup L) by (apply NoDup_filter, files_of_nodup, Hu).
  assert (Hv : forall a, In a L -> Forall (fun d => valid_name d = true)
                                          (fst a ++ [snd a])).
  { intros a Ha. apply filter_In in Ha as [Ha _].
    exact (files_of_valid n Hwf a Ha). }
  rewrite !map_map. split; apply NoDup_map_NoDup_ForallPairs; try exact HL.
  - intros [ds nm] [ds' nm'] Ha Hb E. cbn [yielded fst snd] in E.
    apply descend_join_inj in E as [-> ->]; [reflexivity | |].
    + exact (Hv _ Ha).
    + exact (Hv _ Hb).
  - intros [ds nm] [ds' nm'] Ha Hb E. cbn [yielded fst snd] in E.
    pose proof (Hv _ Ha) as Va. pose proof (Hv _ Hb) as Vb.
    cbn [fst snd] in Va, Vb.
    assert (Hs : forall l, Forall (fun d => valid_name d = true) l ->
                   Forall (fun x => Str.contains x PosixPath.sep = false) l).
    { intros l H. eapply Forall_impl; [|exact H]. intros x Hx.
      now apply valid_name_component, component_spec in Hx. }
    apply (f_equal (Str.split PosixPath.sep)) in E.
    rewrite !split_join in E;
      [| destruct ds'; discriminate | now apply Hs
       | destruct ds; discriminate | now apply Hs].
    apply app_inj_tail in E as [-> ->]. reflexivity.
Qed.

End Once.

Lemma collect_in_walk_order_witness :
  collectMatchingFiles "/work" (Some example_home) "/home/u" extensions
  = Some (map (fun a => (PosixPath.join (FS.descend "/home/u" (fst a)) (snd a),
                         Str.join "/" (fst a ++ [snd a])))
              (filter (fun a => matches extensions (snd a)) (files_of example_home))).
Proof.
  apply (collect_in_walk_order "/work" example_home "/home/u" extensions);
    reflexivity.
Defined.

Lemma each_file_yielded_once_witness :
  exists l,
    collectMatchingFiles "/work" (Some example_home) "/home/u" extensions = Some l /\
    NoDup (map fst l) /\ NoDup (map snd l).
Proof.
  apply (each_file_yielded_once "/work" example_home "/home/u" extensions);
    reflexivity.
Defined.

(** * The get-pip step without a network *)
Section Offline.

Variable env : Env.

(** X14. When the download of get-pip.py raises, the get-pip step
    runs no subprocess at all: neither a downloaded script nor pip. *)
Theorem failed_download_runs_nothing :
  (forall h name, exists e, urlretrieve env h url name = Raise e) ->
  adds is_run 0 (get_pip env).
Proof.
  intros Hfail. unfold get_pip.
  apply (adds_try_finally _ 0 0); [|now apply remove_tmpFile_quiet].
  apply (adds_try_except _ 0 0); [|quiet].
  do 3 (apply (adds_bind _ 0 0); [quiet | intros _]).
  apply (adds_bind _ 0 0); [now apply NamedTemporaryFile_quiet | intros name].
  apply (adds_bind _ 0 0); [now apply bind_tmpFile_quiet | intros _].
  apply (adds_bind_ret _ 0 0); [quiet|].
  intros a [s Hs]. exfalso. unfold call in Hs. cbn [fst] in Hs.
  destruct (Hfail (trace s) name) as [e He]. rewrite He in Hs. discriminate Hs.
Qed.

End Offline.

Lemma failed_download_runs_nothing_witness :
  adds is_run 0 (get_pip example_offline).
Proof.
  apply failed_download_runs_nothing. intros h name. eexists. reflexivity.
Defined.
